(** * Streaming ingestion engine of the meeting-summary front end

    A shallow embedding of [src/frontent/src/components/Upload.js]
    (the [FileUpload] component: [streamReducer], [handleFileChange] and
    [handleUploadAndAnalyze]) and the properties of its event-stream
    decoding, interpretation and session life cycle. *)

From Stdlib Require Import String Ascii.
From Stdlib Require DecimalString.
From Stdlib Require Import List NArith Arith Bool Lia.
Import ListNotations.

(** ** JavaScript strings

    A JavaScript string is a sequence of UTF-16 code units. *)

Definition jsstring := list N.

(** An ASCII literal of the source, as code units. *)
Fixpoint lit (s : string) : jsstring :=
  match s with
  | EmptyString => []
  | String c r => N_of_ascii c :: lit r
  end.

Fixpoint jsstring_eqb (a b : jsstring) : bool :=
  match a, b with
  | [], [] => true
  | x :: a', y :: b' => N.eqb x y && jsstring_eqb a' b'
  | _, _ => false
  end.

(** [s.startsWith(p)] *)
Fixpoint startsWith (p s : jsstring) : bool :=
  match p, s with
  | [], _ => true
  | x :: p', y :: s' => N.eqb x y && startsWith p' s'
  | _ :: _, [] => false
  end.

(** [s.indexOf(p)]; [None] stands for the result [-1]. *)
Fixpoint indexOf (p s : jsstring) : option nat :=
  if startsWith p s then Some 0
  else match s with
       | [] => None
       | _ :: s' => option_map S (indexOf p s')
       end.

(** [s.substring(0, n)] and [s.substring(n)], for [n] a non-negative integer;
    both clamp [n] to the length of [s], as [firstn] and [skipn] do. *)
Definition substring_to (n : nat) (s : jsstring) : jsstring := firstn n s.
Definition substring_from (n : nat) (s : jsstring) : jsstring := skipn n s.

(** The code units [String.prototype.trim] strips: ECMAScript's WhiteSpace
    and LineTerminator productions. *)
Definition is_white (c : N) : bool :=
  existsb (N.eqb c)
    [ 9; 10; 11; 12; 13; 32; 160; 5760; 8232; 8233; 8239; 8287; 12288; 65279 ]%N
  || (N.leb 8192 c && N.leb c 8202).

Fixpoint trimStart (s : jsstring) : jsstring :=
  match s with
  | c :: s' => if is_white c then trimStart s' else s
  | [] => []
  end.

Definition trimEnd (s : jsstring) : jsstring := rev (trimStart (rev s)).

(** [s.trim()] *)
Definition trim (s : jsstring) : jsstring := trimEnd (trimStart s).

(** A number in a template literal: its decimal digits. *)
Definition decimal (n : N) : jsstring :=
  lit (DecimalString.NilZero.string_of_uint (N.to_uint n)).

(** Truthiness of a value that is a string, [null] or [undefined]. *)
Definition truthy (v : option jsstring) : bool :=
  match v with
  | Some (_ :: _) => true
  | _ => false
  end.

Definition newline : N := 10%N.
Definition blank_line : jsstring := [newline; newline].

(** ** The stream state and its reducer *)

(** The object held by [useReducer].  [statusMessage] is [None] when it is
    [undefined] (a STATUS payload without a message), [error] is [None] when
    it is [null]. *)
Record State := mkState {
  transcript : jsstring;
  summary : jsstring;
  statusMessage : option jsstring;
  error : option jsstring;
  isProcessing : bool
}.

Definition initialState : State :=
  {| transcript := [];
     summary := [];
     statusMessage := Some (lit "Upload an audio or video file to begin.");
     error := None;
     isProcessing := false |}.

(** The actions the component dispatches, with the payloads it gives them. *)
Inductive Action :=
| START
| UPDATE_STATUS (payload : option jsstring)
| APPEND_TRANSCRIPT (payload : jsstring)
| APPEND_SUMMARY (payload : jsstring)
| COMPLETE (payload : option jsstring)
| ERROR (payload : jsstring).

(** U+274C, the cross mark of the error status. *)
Definition cross_mark : jsstring := [10060%N].
(** U+2705, the check mark of the completion status. *)
Definition check_mark : jsstring := [9989%N].

Definition error_prefix : jsstring := cross_mark ++ lit " Error: ".

Definition streamReducer (state : State) (action : Action) : State :=
  match action with
  | START =>
      {| transcript := transcript initialState;
         summary := summary initialState;
         statusMessage := Some (lit "File uploading...");
         error := None;
         isProcessing := true |}
  | UPDATE_STATUS payload =>
      {| transcript := transcript state;
         summary := summary state;
         statusMessage := payload;
         error := error state;
         isProcessing := isProcessing state |}
  | APPEND_TRANSCRIPT payload =>
      let newTranscriptPart :=
        if 0 <? length (transcript state) then lit " " ++ payload else payload in
      {| transcript := transcript state ++ newTranscriptPart;
         summary := summary state;
         statusMessage := statusMessage state;
         error := error state;
         isProcessing := isProcessing state |}
  | APPEND_SUMMARY payload =>
      let newSummaryPart :=
        if 0 <? length (summary state) then lit " " ++ payload else payload in
      {| transcript := transcript state;
         summary := summary state ++ newSummaryPart;
         statusMessage := statusMessage state;
         error := error state;
         isProcessing := isProcessing state |}
  | COMPLETE payload =>
      {| transcript := transcript state;
         summary := summary state;
         statusMessage := if truthy payload then payload else statusMessage state;
         error := error state;
         isProcessing := false |}
  | ERROR payload =>
      {| transcript := transcript state;
         summary := summary state;
         statusMessage := Some (error_prefix ++ payload);
         error := Some payload;
         isProcessing := false |}
  end.

(** The state published after a sequence of dispatches. *)
Definition reduce (state : State) (actions : list Action) : State :=
  fold_left streamReducer actions state.

(** COMPLETE and ERROR close a session. *)
Definition is_terminal (a : Action) : bool :=
  match a with
  | COMPLETE _ | ERROR _ => true
  | _ => false
  end.

(** ** Payloads

    The object [JSON.parse] returns for the body of a [data:] record, seen
    through the four properties the component reads.  On the wire each of
    them is a string when present; [None] is an absent property. *)
Module Payload.
Record t := mk {
  tag : option jsstring;
  message : option jsstring;
  transcript : option jsstring;
  summary : option jsstring
}.
End Payload.

(** ** The transport

    What [fetch] and the body's reader deliver, as a finite script: a
    response carries its status and, when it has a body, the results of the
    successive [reader.read()] calls.  A chunk is given as the text that
    [decoder.decode(value, {stream: true})] produces for it. *)

Record Err := mkErr { err_name : jsstring; err_message : jsstring }.

(** [new Error(m)] *)
Definition Error_ (m : jsstring) : Err :=
  {| err_name := lit "Error"; err_message := m |}.

Inductive Stream :=
| Chunk (value : jsstring) (rest : Stream)
| Done
| ReadRejected (e : Err).

Inductive Fetch :=
| Response (status : N) (body : option Stream)
| Rejected (e : Err).

(** [res.ok] *)
Definition ok (status : N) : bool := N.leb 200 status && N.leb status 299.

Record World := mkWorld { upload : Fetch; stream : Fetch }.

Record File := mkFile { file_id : nat; file_name : jsstring }.

(** ** The handler's store and its monad *)

Inductive LogEntry :=
| log_reader_finished
| log_done
| log_aborted
| error_parse (dataString : jsstring) (e : Err)
| error_fatal (e : Err).

(** The variables [handleUploadAndAnalyze] reads and writes, and what it has
    done to the world so far.  [frames] and [reads] are history variables:
    the values [message] took at line 245 and the number of chunks pulled. *)
Record Store := mkStore {
  dispatched : list Action;
  console : list LogEntry;
  isStreamSuccessful : bool;
  reader : option bool;          (* [None]: null; [Some c]: a reader, cancelled or not *)
  buffer : jsstring;
  controller : option bool;      (* [None]: no AbortController; [Some a]: [signal.aborted] *)
  frames : list jsstring;
  reads : nat
}.

Definition empty_store : Store :=
  {| dispatched := []; console := []; isStreamSuccessful := false;
     reader := None; buffer := []; controller := None; frames := []; reads := 0 |}.

(** How a statement completes: normally, by [throw], or by [return]. *)
Inductive Completion (A : Type) :=
| Normal (a : A)
| Throw (e : Err)
| Return.

Arguments Normal {A} a.
Arguments Throw {A} e.
Arguments Return {A}.

Definition M (A : Type) := Store -> Completion A * Store.

Definition ret {A} (a : A) : M A := fun s => (Normal a, s).

Definition bind {A B} (m : M A) (k : A -> M B) : M B :=
  fun s =>
    match m s with
    | (Normal a, s') => k a s'
    | (Throw e, s') => (Throw e, s')
    | (Return, s') => (Return, s')
    end.

Notation "x <- m ;; k" := (bind m (fun x => k))
  (at level 61, m at next level, right associativity).
Notation "m ;; k" := (bind m (fun _ => k))
  (at level 61, right associativity).

Definition throw {A} (e : Err) : M A := fun s => (Throw e, s).
Definition return_ {A} : M A := fun s => (Return, s).

(** [try { body } catch (e) { handler e }] *)
Definition try_catch {A} (body : M A) (handler : Err -> M A) : M A :=
  fun s =>
    match body s with
    | (Throw e, s') => handler e s'
    | r => r
    end.

(** [try { body } finally { fin }]: [fin] always runs, and the completion of
    [body] stands unless [fin] itself completes abruptly. *)
Definition try_finally {A} (body : M A) (fin : M unit) : M A :=
  fun s =>
    let (c, s') := body s in
    match fin s' with
    | (Normal _, s'') => (c, s'')
    | (Throw e, s'') => (Throw e, s'')
    | (Return, s'') => (Return, s'')
    end.

Definition get {A} (f : Store -> A) : M A := fun s => (Normal (f s), s).
Definition modify (f : Store -> Store) : M unit := fun s => (Normal tt, f s).

Definition with_dispatched (f : list Action -> list Action) (s : Store) : Store :=
  mkStore (f (dispatched s)) (console s) (isStreamSuccessful s) (reader s)
          (buffer s) (controller s) (frames s) (reads s).
Definition with_console (f : list LogEntry -> list LogEntry) (s : Store) : Store :=
  mkStore (dispatched s) (f (console s)) (isStreamSuccessful s) (reader s)
          (buffer s) (controller s) (frames s) (reads s).
Definition with_isStreamSuccessful (b : bool) (s : Store) : Store :=
  mkStore (dispatched s) (console s) b (reader s)
          (buffer s) (controller s) (frames s) (reads s).
Definition with_reader (r : option bool) (s : Store) : Store :=
  mkStore (dispatched s) (console s) (isStreamSuccessful s) r
          (buffer s) (controller s) (frames s) (reads s).
Definition with_buffer (b : jsstring) (s : Store) : Store :=
  mkStore (dispatched s) (console s) (isStreamSuccessful s) (reader s)
          b (controller s) (frames s) (reads s).
Definition with_controller (c : option bool) (s : Store) : Store :=
  mkStore (dispatched s) (console s) (isStreamSuccessful s) (reader s)
          (buffer s) c (frames s) (reads s).
Definition with_frames (f : list jsstring -> list jsstring) (s : Store) : Store :=
  mkStore (dispatched s) (console s) (isStreamSuccessful s) (reader s)
          (buffer s) (controller s) (f (frames s)) (reads s).
Definition with_reads (f : nat -> nat) (s : Store) : Store :=
  mkStore (dispatched s) (console s) (isStreamSuccessful s) (reader s)
          (buffer s) (controller s) (frames s) (f (reads s)).

(** [dispatch(action)] *)
Definition dispatch (a : Action) : M unit :=
  modify (with_dispatched (fun l => l ++ [a])).

Definition console_log (e : LogEntry) : M unit :=
  modify (with_console (fun l => l ++ [e])).

(** [await p] for the promise of a [fetch]. *)
Definition await_fetch (f : Fetch) : M (N * option Stream) :=
  match f with
  | Response status body => ret (status, body)
  | Rejected e => throw e
  end.

Definition when (b : bool) (m : M unit) : M unit := if b then m else ret tt.

Definition is_string (v : option jsstring) (s : jsstring) : bool :=
  match v with
  | Some x => jsstring_eqb x s
  | None => false
  end.

Definition string_or_empty (v : option jsstring) : jsstring :=
  match v with
  | Some x => x
  | None => []
  end.

(** ** A parser for the wire's payloads

    The component calls the platform's [JSON.parse]; the development below is
    parametric in it.  [FlatJSON.parse] is a parser for the fragment the
    backend emits (one object whose members are strings, with the simple
    escapes), on which the examples run.  It accepts only JSON texts of this
    fragment and gives them the value [JSON.parse] gives them. *)
Module FlatJSON.

Definition is_ws (c : N) : bool :=
  N.eqb c 32 || N.eqb c 9 || N.eqb c 10 || N.eqb c 13.

Fixpoint skip_ws (s : jsstring) : jsstring :=
  match s with
  | c :: s' => if is_ws c then skip_ws s' else s
  | [] => []
  end.

Definition unescape (c : N) : option N :=
  if N.eqb c 34 then Some 34%N            (* quotation mark *)
  else if N.eqb c 92 then Some 92%N       (* reverse solidus *)
  else if N.eqb c 47 then Some 47%N       (* solidus *)
  else if N.eqb c 98 then Some 8%N        (* b: backspace *)
  else if N.eqb c 102 then Some 12%N      (* f: form feed *)
  else if N.eqb c 110 then Some 10%N      (* n: line feed *)
  else if N.eqb c 114 then Some 13%N      (* r: carriage return *)
  else if N.eqb c 116 then Some 9%N       (* t: tab *)
  else None.

Definition push (c : N) (r : option (jsstring * jsstring)) :
  option (jsstring * jsstring) :=
  match r with
  | Some (v, rest) => Some (c :: v, rest)
  | None => None
  end.

(** After an opening quote: the string's value and what follows its
    closing quote. *)
Fixpoint string_body (s : jsstring) : option (jsstring * jsstring) :=
  match s with
  | [] => None
  | c :: rest =>
      if N.eqb c 34 then Some ([], rest)
      else if N.eqb c 92 then
        match rest with
        | e :: rest' =>
            match unescape e with
            | Some u => push u (string_body rest')
            | None => None
            end
        | [] => None
        end
      else if N.ltb c 32 then None
      else push c (string_body rest)
  end.

(** The character [c], then optional white space. *)
Definition expect (c : N) (s : jsstring) : option jsstring :=
  match s with
  | x :: s' => if N.eqb x c then Some (skip_ws s') else None
  | [] => None
  end.

Definition quoted (s : jsstring) : option (jsstring * jsstring) :=
  match s with
  | x :: s' =>
      if N.eqb x 34 then
        match string_body s' with
        | Some (v, rest) => Some (v, skip_ws rest)
        | None => None
        end
      else None
  | [] => None
  end.

Fixpoint members (fuel : nat) (s : jsstring) (acc : list (jsstring * jsstring))
  : option (list (jsstring * jsstring) * jsstring) :=
  match fuel with
  | 0 => None
  | S fuel' =>
      match quoted s with
      | Some (k, s1) =>
          match expect 58 s1 with
          | Some s2 =>
              match quoted s2 with
              | Some (v, s3) =>
                  match expect 44 s3, expect 125 s3 with
                  | Some s4, _ => members fuel' s4 (acc ++ [(k, v)])
                  | None, Some s4 => Some (acc ++ [(k, v)], s4)
                  | None, None => None
                  end
              | None => None
              end
          | None => None
          end
      | None => None
      end
  end.

Definition object (s : jsstring) : option (list (jsstring * jsstring)) :=
  match expect 123 (skip_ws s) with
  | Some s1 =>
      match expect 125 s1 with
      | Some [] => Some []
      | Some (_ :: _) => None
      | None =>
          match members (length s1) s1 [] with
          | Some (ms, []) => Some ms
          | _ => None
          end
      end
  | None => None
  end.

(** Property lookup; of two members with one key the later one stands. *)
Definition property (key : jsstring) (ms : list (jsstring * jsstring))
  : option jsstring :=
  match find (fun m => jsstring_eqb (fst m) key) (rev ms) with
  | Some m => Some (snd m)
  | None => None
  end.

Definition parse (s : jsstring) : option Payload.t :=
  match object s with
  | Some ms =>
      Some (Payload.mk (property (lit "tag") ms) (property (lit "message") ms)
                       (property (lit "transcript") ms) (property (lit "summary") ms))
  | None => None
  end.

End FlatJSON.

(** An example text of the wire, written with apostrophes where the wire has
    quotation marks. *)
Definition wire (s : string) : jsstring :=
  map (fun c => if N.eqb c 39 then 34%N else c) (lit s).

(** ** The handler *)

Definition done_token : jsstring := lit "[DONE]".

(** What the inner [catch] receives when [JSON.parse] throws or the parsed
    value has no readable properties; the text of its message is the
    platform's. *)
Definition parse_error : Err :=
  {| err_name := lit "SyntaxError"; err_message := [] |}.

Definition uploading_status : jsstring := lit "Uploading file to server...".
Definition uploaded_status : jsstring :=
  lit "File uploaded. Starting processing stream...".
Definition complete_status : jsstring :=
  check_mark ++ lit " Analysis Complete. Full Report Available.".
Definition interrupted_message : jsstring :=
  lit "The streaming connection was interrupted.".
Definition fatal_message : jsstring :=
  lit "A fatal network or processing error occurred.".

Section Engine.

(** [JSON.parse], followed by the reading of the four properties: [None]
    when it throws (or yields [null], whose properties cannot be read). *)
Variable JSON_parse : jsstring -> option Payload.t.

(** The body of the inner [try] (lines 259-273). *)
Definition apply_payload (dataString : jsstring) : M unit :=
  match JSON_parse dataString with
  | None => throw parse_error
  | Some data =>
      when (is_string (Payload.tag data) (lit "STATUS"))
           (dispatch (UPDATE_STATUS (Payload.message data)));;
      when (is_string (Payload.tag data) (lit "ERROR"))
           (throw (Error_ (string_or_empty (Payload.message data))));;
      when (truthy (Payload.transcript data))
           (dispatch (APPEND_TRANSCRIPT (string_or_empty (Payload.transcript data))));;
      when (truthy (Payload.summary data))
           (dispatch (APPEND_SUMMARY (string_or_empty (Payload.summary data))))
  end.

(** What is done with one [message] (lines 248-278). *)
Definition handle_message (message : jsstring) : M unit :=
  when (startsWith (lit "data:") message)
    (let dataString := trim (substring_from 5 message) in
     if jsstring_eqb dataString done_token then
       modify (with_isStreamSuccessful true);;
       console_log log_done;;
       return_
     else
       try_catch (apply_payload dataString)
                 (fun e => console_log (error_parse dataString e))).

(** The inner [while (true)] (lines 241-279).  Each turn removes at least
    the two code units of a delimiter from [buffer], so [fuel] turns are
    enough when [fuel] is the length of [buffer]. *)
Fixpoint process_messages (fuel : nat) : M unit :=
  buf <- get buffer;;
  match indexOf blank_line buf with
  | None => ret tt
  | Some endOfMessage =>
      match fuel with
      | 0 => ret tt
      | S fuel' =>
          let message := trim (substring_to endOfMessage buf) in
          modify (with_buffer (substring_from (endOfMessage + 2) buf));;
          modify (with_frames (fun l => l ++ [message]));;
          handle_message message;;
          process_messages fuel'
      end
  end.

Definition drain : M unit :=
  buf <- get buffer;;
  process_messages (length buf).

(** The outer [while (true)] (lines 229-280), over the results of the
    successive [await reader.read()]. *)
Fixpoint read_loop (r : Stream) : M unit :=
  match r with
  | Done => console_log log_reader_finished
  | ReadRejected e => throw e
  | Chunk value rest =>
      modify (with_reads S);;
      modify (fun s => with_buffer (buffer s ++ value) s);;
      drain;;
      read_loop rest
  end.

(** The outer [try] (lines 197-280). *)
Definition try_block (w : World) : M unit :=
  dispatch (UPDATE_STATUS (Some uploading_status));;
  uploadRes <- await_fetch (upload w);;
  when (negb (ok (fst uploadRes)))
       (throw (Error_ (lit "Upload failed with status " ++ decimal (fst uploadRes))));;
  dispatch (UPDATE_STATUS (Some uploaded_status));;
  streamRes <- await_fetch (stream w);;
  match snd streamRes with
  | Some body =>
      if ok (fst streamRes) then
        modify (with_reader (Some false));;
        modify (with_buffer []);;
        read_loop body
      else
        throw (Error_ (lit "Stream request failed with status " ++ decimal (fst streamRes)))
  | None =>
      throw (Error_ (lit "Stream request failed with status " ++ decimal (fst streamRes)))
  end.

(** The outer [catch] (lines 282-288). *)
Definition catch_block (err : Err) : M unit :=
  if jsstring_eqb (err_name err) (lit "AbortError") then
    console_log log_aborted
  else
    console_log (error_fatal err);;
    dispatch (ERROR (match err_message err with
                     | [] => fatal_message
                     | m => m
                     end)).

(** The [finally] (lines 289-308).  [state] is the state the callback
    closed over when it was created. *)
Definition finally_block (state : State) : M unit :=
  r <- get reader;;
  when (match r with Some _ => true | None => false end)
       (modify (with_reader (Some true)));;
  success <- get isStreamSuccessful;;
  (if success then
     dispatch (COMPLETE (Some complete_status))
   else
     when (negb (truthy (error state)))
          (dispatch (ERROR interrupted_message)));;
  c <- get controller;;
  match c with
  | Some false => modify (with_controller (Some true))
  | _ => ret tt
  end.

(** [handleUploadAndAnalyze] (lines 183-309): [file] and [state] are the
    values of the render in which the callback was created. *)
Definition handleUploadAndAnalyze (file : option File) (state : State) (w : World)
  : M unit :=
  match file with
  | None => return_
  | Some _ =>
      if isProcessing state then return_
      else
        dispatch START;;
        modify (with_controller (Some false));;
        modify (with_isStreamSuccessful false);;
        modify (with_reader None);;
        try_finally (try_catch (try_block w) catch_block) (finally_block state)
  end.

(** The store a call of the handler leaves, from a store [s]. *)
Definition run (file : option File) (state : State) (w : World) (s : Store) : Store :=
  snd (handleUploadAndAnalyze file state w s).

End Engine.

(** ** The component

    [FileUpload] holds the selected file, the reducer's state, the abort
    controller's ref, and the callback [useCallback] keeps: the latter is
    created anew, closing over the current file and state, in a render in which
    one of its dependencies [[file, state.error]] has changed, and is kept
    otherwise. *)
Module FileUpload.
Record t := mk {
  file : option File;
  state : State;
  abortControllerRef : option bool;
  memo_file : option File;
  memo_state : State
}.
End FileUpload.

Definition mount : FileUpload.t :=
  FileUpload.mk None initialState None None initialState.

(** [Object.is] on two files, and on two values of [state.error]. *)
Definition same_file (a b : option File) : bool :=
  match a, b with
  | Some f, Some g => Nat.eqb (file_id f) (file_id g)
  | None, None => true
  | _, _ => false
  end.

Definition same_error (a b : option jsstring) : bool :=
  match a, b with
  | Some x, Some y => jsstring_eqb x y
  | None, None => true
  | _, _ => false
  end.

(** A render after the file or the state has changed. *)
Definition render (c : FileUpload.t) : FileUpload.t :=
  if same_file (FileUpload.file c) (FileUpload.memo_file c)
     && same_error (error (FileUpload.state c)) (error (FileUpload.memo_state c))
  then c
  else FileUpload.mk (FileUpload.file c) (FileUpload.state c)
                     (FileUpload.abortControllerRef c)
                     (FileUpload.file c) (FileUpload.state c).

(** One [dispatch] seen from the component. *)
Definition dispatch_render (c : FileUpload.t) (a : Action) : FileUpload.t :=
  render (FileUpload.mk (FileUpload.file c) (streamReducer (FileUpload.state c) a)
                        (FileUpload.abortControllerRef c)
                        (FileUpload.memo_file c) (FileUpload.memo_state c)).

Definition file_selected_status (f : File) : jsstring :=
  lit "File selected: " ++ file_name f ++ lit ". Ready to analyze.".

(** [handleFileChange] (lines 175-180); [selectedFile] is
    [event.target.files[0]].  The function is created in every render, so its
    [state] is the current one. *)
Definition handleFileChange (c : FileUpload.t) (selectedFile : option File)
  : FileUpload.t :=
  if isProcessing (FileUpload.state c) then c
  else
    let payload :=
      match selectedFile with
      | Some f => file_selected_status f
      | None => lit "Upload an audio or video file to begin."
      end in
    render (FileUpload.mk selectedFile
                          (streamReducer (FileUpload.state c) (COMPLETE (Some payload)))
                          (FileUpload.abortControllerRef c)
                          (FileUpload.memo_file c) (FileUpload.memo_state c)).

(** The [disabled] attribute of the button (line 344). *)
Definition button_disabled (c : FileUpload.t) : bool :=
  match FileUpload.file c with
  | None => true
  | Some _ => isProcessing (FileUpload.state c)
  end.

(** A click on the button: a disabled button delivers none; otherwise the
    kept callback runs, with the file and state it closed over, and each of
    its dispatches reaches the component. *)
Definition click (JSON_parse : jsstring -> option Payload.t)
  (c : FileUpload.t) (w : World) : FileUpload.t * list Action :=
  if button_disabled c then (c, [])
  else
    let s := run JSON_parse (FileUpload.memo_file c) (FileUpload.memo_state c) w
                 (with_controller (FileUpload.abortControllerRef c) empty_store) in
    let c' := fold_left dispatch_render (dispatched s) c in
    (FileUpload.mk (FileUpload.file c') (FileUpload.state c') (controller s)
                   (FileUpload.memo_file c') (FileUpload.memo_state c'),
     dispatched s).

(** ** Streams, records and frames *)

(** The stream that delivers the chunks [l] and then goes on as [e]. *)
Definition chunks (l : list jsstring) (e : Stream) : Stream := fold_right Chunk e l.

(** The text of a sequence of records, each followed by its blank line. *)
Definition records_text (rs : list jsstring) : jsstring :=
  concat (map (fun r => r ++ blank_line) rs).

(** A record holds no blank line and does not end in a newline, so that the
    blank line after it is the first one. *)
Definition delimited (r : jsstring) : bool :=
  match indexOf blank_line r with
  | None => negb (N.eqb (last r 0%N) newline)
  | Some _ => false
  end.

(** The frame is the completion sentinel. *)
Definition is_done_frame (message : jsstring) : bool :=
  startsWith (lit "data:") message
  && jsstring_eqb (trim (substring_from 5 message)) done_token.

(** The body of a [data:] frame. *)
Definition body_of (message : jsstring) : jsstring := trim (substring_from 5 message).

(** A record that is delimited and is not the sentinel. *)
Definition plain_record (r : jsstring) : bool :=
  delimited r && negb (is_done_frame (trim r)).

(** The frames a text holds up to its first sentinel, what is left of the
    text after them, and whether a sentinel was met. *)
Fixpoint scan (fuel : nat) (text : jsstring) : list jsstring * jsstring * bool :=
  match indexOf blank_line text with
  | None => ([], text, false)
  | Some i =>
      match fuel with
      | 0 => ([], text, false)
      | S fuel' =>
          let message := trim (substring_to i text) in
          let rest := substring_from (i + 2) text in
          if is_done_frame message then ([message], rest, true)
          else
            let '(fs, r, d) := scan fuel' rest in
            (message :: fs, r, d)
      end
  end.

Definition decode (text : jsstring) : list jsstring * jsstring * bool :=
  scan (length text) text.

(** The actions a parsed payload causes: the status update of a STATUS
    payload, and the appends of the fragments unless the tag is ERROR. *)
Definition payload_actions (data : Payload.t) : list Action :=
  (if is_string (Payload.tag data) (lit "STATUS")
   then [UPDATE_STATUS (Payload.message data)] else [])
  ++ (if is_string (Payload.tag data) (lit "ERROR") then []
      else (if truthy (Payload.transcript data)
            then [APPEND_TRANSCRIPT (string_or_empty (Payload.transcript data))]
            else [])
           ++ (if truthy (Payload.summary data)
               then [APPEND_SUMMARY (string_or_empty (Payload.summary data))]
               else [])).

Section Frames.
Variable JSON_parse : jsstring -> option Payload.t.

(** The actions and the console entries one frame causes. *)
Definition frame_actions (message : jsstring) : list Action :=
  dispatched (snd (handle_message JSON_parse message empty_store)).
Definition frame_logs (message : jsstring) : list LogEntry :=
  console (snd (handle_message JSON_parse message empty_store)).

(** The store after the frames [fs] have been handled, [rest] being what
    is left in the buffer and [d] telling whether the last one was the
    sentinel. *)
Definition absorb (fs : list jsstring) (rest : jsstring) (d : bool) (s : Store) : Store :=
  mkStore (dispatched s ++ flat_map frame_actions fs)
          (console s ++ flat_map frame_logs fs)
          (d || isStreamSuccessful s) (reader s) rest (controller s)
          (frames s ++ fs) (reads s).

(** A well-formed [data:] record: delimited, with the [data:] prefix, and
    a body that [JSON.parse] accepts (so not the sentinel, which is not
    JSON). *)
Definition data_record (r : jsstring) : bool :=
  delimited r
  && startsWith (lit "data:") (trim r)
  && negb (jsstring_eqb (body_of (trim r)) done_token)
  && match JSON_parse (body_of (trim r)) with Some _ => true | None => false end.

(** A [data:] record whose body [JSON.parse] rejects. *)
Definition malformed_record (r : jsstring) : bool :=
  delimited r
  && startsWith (lit "data:") (trim r)
  && negb (jsstring_eqb (body_of (trim r)) done_token)
  && match JSON_parse (body_of (trim r)) with Some _ => false | None => true end.

(** The actions of a [data:] record, from its parsed body. *)
Definition record_actions (r : jsstring) : list Action :=
  match JSON_parse (body_of (trim r)) with
  | Some data => payload_actions data
  | None => []
  end.
End Frames.

(** The store once [k] more chunks have been pulled. *)
Definition pulled (k : nat) (s : Store) : Store := with_reads (fun n => k + n) s.

(** The body of the stream, when both requests are answered with a status
    in 200-299 and the second response has a body. *)
Definition opened (w : World) : option Stream :=
  match upload w, stream w with
  | Response u _, Response v (Some body) =>
      if ok u && ok v then Some body else None
  | _, _ => None
  end.

(** The store when the handler enters its [try], and when it enters the read
    loop. *)
Definition begun (s : Store) : Store :=
  mkStore (dispatched s ++ [START]) (console s) false None (buffer s)
          (Some false) (frames s) (reads s).

Definition reading (s : Store) : Store :=
  mkStore (dispatched s ++ [UPDATE_STATUS (Some uploading_status);
                            UPDATE_STATUS (Some uploaded_status)])
          (console s) (isStreamSuccessful s) (Some false) [] (controller s)
          (frames s) (reads s).

(** What the [finally] dispatches. *)
Definition closing (state : State) (s : Store) : list Action :=
  if isStreamSuccessful s then [COMPLETE (Some complete_status)]
  else if truthy (error state) then []
  else [ERROR interrupted_message].

(** The prelude every started session dispatches before it reads. *)
Definition prelude : list Action :=
  [START; UPDATE_STATUS (Some uploading_status); UPDATE_STATUS (Some uploaded_status)].

(** ** Example sessions *)

Definition meeting : File := mkFile 0 (lit "meeting.mp3").

(** The component after mounting and the selection of a file. *)
Definition ready : FileUpload.t := handleFileChange mount (Some meeting).

(** The component once a session has started. *)
Definition running : FileUpload.t := dispatch_render ready START.

Definition abort_error : Err :=
  {| err_name := lit "AbortError"; err_message := lit "The user aborted a request." |}.

(** The stream of a world whose two requests succeed. *)
Definition streaming (body : Stream) : World :=
  mkWorld (Response 200 None) (Response 200 (Some body)).

Definition boom_record : jsstring := wire "data: {'tag':'ERROR','message':'boom'}".
Definition late_record : jsstring := wire "data: {'transcript':'late'}".
Definition hello_record : jsstring := wire "data: {'transcript':'hello'}".
Definition status_record : jsstring := wire "data: {'tag':'STATUS','message':'Transcribing'}".
Definition empty_record : jsstring := wire "data: {'transcript':'','summary':'recap'}".
Definition bad_record : jsstring := wire "data: {'transcript': oops".
Definition done_record : jsstring := lit "data: [DONE]".

(** The backend reports an error, goes on, and closes the stream. *)
Definition boom_then_close : World :=
  streaming (chunks [boom_record ++ blank_line; late_record ++ blank_line] Done).

(** The backend reports an error, goes on, and ends with the sentinel. *)
Definition boom_then_done : World :=
  streaming (chunks [boom_record ++ blank_line;
                     late_record ++ blank_line ++ done_record ++ blank_line] Done).

(** The upload is answered with status 500. *)
Definition upload_fails : World :=
  mkWorld (Response 500 None) (Response 200 None).

(** The stream is aborted while a read is pending, after one record. *)
Definition aborted_while_reading : World :=
  streaming (chunks [hello_record ++ blank_line] (ReadRejected abort_error)).

(** A read fails with a network error after one record. *)
Definition network_error : Err :=
  {| err_name := lit "TypeError"; err_message := lit "network error" |}.

Definition read_fails : World :=
  streaming (chunks [hello_record ++ blank_line] (ReadRejected network_error)).

(** Two records, cut in the middle of the first and again inside the blank
    line that ends it. *)
Definition two_records : list jsstring := [status_record; hello_record].
Definition two_records_cut : list jsstring :=
  [firstn 10 status_record;
   skipn 10 status_record ++ [newline];
   [newline] ++ hello_record ++ blank_line].

(** A record, the sentinel cut in two, and text after it in the same chunk
    and in a further one. *)
Definition after_done : jsstring := late_record ++ blank_line ++ hello_record.
Definition done_cut : list jsstring :=
  [hello_record ++ blank_line ++ firstn 7 done_record;
   skipn 7 done_record ++ blank_line ++ late_record;
   blank_line ++ hello_record].

(** A malformed record between two well-formed ones, in two chunks. *)
Definition sandwich_cut : list jsstring :=
  [hello_record ++ blank_line ++ firstn 9 bad_record;
   skipn 9 bad_record ++ blank_line ++ late_record ++ blank_line].

(** ** What the component renders (lines 312-318, 344-355, 378-402) *)

(** [a || b] on two strings. *)
Definition or_else (a b : jsstring) : jsstring :=
  match a with
  | [] => b
  | _ :: _ => a
  end.

Definition transcriptPlaceholder (state : State) : jsstring :=
  if isProcessing state then lit "Transcription streaming in progress..."
  else lit "Transcript will appear here...".

Definition summaryPlaceholder (state : State) : jsstring :=
  if isProcessing state then lit "Summary generation in progress..."
  else lit "No summary yet.".

(** The text in the transcript box and in the summary box. *)
Definition shown_transcript (state : State) : jsstring :=
  or_else (transcript state) (transcriptPlaceholder state).
Definition shown_summary (state : State) : jsstring :=
  or_else (summary state) (summaryPlaceholder state).

(** The status paragraph: the error when there is one, the status otherwise
    ([None] when the status is [undefined] and nothing is shown). *)
Definition banner (state : State) : option jsstring :=
  if truthy (error state)
  then Some (cross_mark ++ lit " " ++ string_or_empty (error state))
  else statusMessage state.

(** [s.split(':')[0]]: the text before the first colon. *)
Fixpoint before_colon (s : jsstring) : jsstring :=
  match s with
  | [] => []
  | c :: r => if N.eqb c 58 then [] else c :: before_colon r
  end.

(** The text of the button; [None] when computing it throws, which
    [state.statusMessage.split] does on an [undefined] status. *)
Definition button_label (state : State) : option jsstring :=
  if isProcessing state then
    match statusMessage state with
    | Some m => Some (or_else (before_colon m) (lit "Processing..."))
    | None => None
    end
  else Some (lit "Upload & Analyze").

(** ** The upload form and the page (the [Upload] component, lines 4-53, and
    [App]) *)

Module App.
Record t := mk {
  file : option File;
  streamData : list Payload.t
}.
(** [{file && <TranscriptStream .../>}] *)
Definition shows_stream (a : t) : bool :=
  match file a with
  | Some _ => true
  | None => false
  end.
End App.

Module Upload.
Record t := mk {
  localFile : option File;
  isUploading : bool;
  error : option jsstring
}.

(** The calls of the state setters, the component's own and the two it is
    given by [App]. *)
Inductive Setter :=
| setLocalFile (f : File)
| setIsUploading (b : bool)
| setError (e : option jsstring)
| setFile (f : option File)
| setStreamData_empty.

Definition apply (st : t * App.t) (c : Setter) : t * App.t :=
  let (u, a) := st in
  match c with
  | setLocalFile f => (mk (Some f) (isUploading u) (error u), a)
  | setIsUploading b => (mk (localFile u) b (error u), a)
  | setError e => (mk (localFile u) (isUploading u) e, a)
  | setFile f => (u, App.mk f (App.streamData a))
  | setStreamData_empty => (u, App.mk (App.file a) [])
  end.

Definition apply_all (st : t * App.t) (cs : list Setter) : t * App.t :=
  fold_left apply cs st.

Definition select_first : jsstring := lit "Please select a file first.".
Definition upload_failed : jsstring :=
  cross_mark
  ++ lit " Upload failed. Check if the backend is running and accessible (http://localhost:8000).".

(** [handleFileChange] (lines 9-15); [file] is [event.target.files[0]]. *)
Definition handleFileChange (file : option File) : list Setter :=
  match file with
  | Some f => [setLocalFile f; setError None]
  | None => []
  end.

(** The setter calls of [handleUpload] (lines 17-53) before its [await]. *)
Definition handleUpload_before (u : t) : list Setter :=
  match localFile u with
  | None => [setError (Some select_first)]
  | Some _ => [setFile None; setStreamData_empty; setIsUploading true; setError None]
  end.

(** Those after it, [response] being what the [fetch] delivers. *)
Definition handleUpload_after (u : t) (response : Fetch) : list Setter :=
  match localFile u with
  | None => []
  | Some f =>
      (match response with
       | Response status _ =>
           if ok status then [setFile (Some f)] else [setError (Some upload_failed)]
       | Rejected _ => [setError (Some upload_failed)]
       end) ++ [setIsUploading false]
  end.

Definition handleUpload (u : t) (response : Fetch) : list Setter :=
  handleUpload_before u ++ handleUpload_after u response.

(** The [disabled] attribute of the upload button (line 90). *)
Definition button_disabled (u : t) : bool :=
  match localFile u with
  | None => true
  | Some _ => isUploading u
  end.
End Upload.

(** The upload of the form has succeeded: a response with a status in
    200-299. *)
Definition upload_succeeded (response : Fetch) : bool :=
  match response with
  | Response status _ => ok status
  | Rejected _ => false
  end.

(** ** Kinds of actions *)

(** The actions that report progress: a status update, or the append of a
    fragment that is not empty. *)
Definition is_progress (a : Action) : bool :=
  match a with
  | UPDATE_STATUS _ => true
  | APPEND_TRANSCRIPT t | APPEND_SUMMARY t =>
      match t with [] => false | _ :: _ => true end
  | _ => false
  end.

Definition is_START (a : Action) : bool :=
  match a with
  | START => true
  | _ => false
  end.

(** The transcript fragments among some actions, in order. *)
Fixpoint transcript_fragments (l : list Action) : list jsstring :=
  match l with
  | [] => []
  | APPEND_TRANSCRIPT t :: l' => t :: transcript_fragments l'
  | _ :: l' => transcript_fragments l'
  end.

(** Strings joined by single spaces. *)
Fixpoint join_spaces (ts : list jsstring) : jsstring :=
  match ts with
  | [] => []
  | [t] => t
  | t :: ts' => t ++ lit " " ++ join_spaces ts'
  end.

(** The record has the [data:] prefix once trimmed. *)
Definition has_data_prefix (r : jsstring) : bool :=
  startsWith (lit "data:") (trim r).

(** The message the outer [catch] dispatches for an error. *)
Definition reported_message (e : Err) : jsstring :=
  match err_message e with
  | [] => fatal_message
  | m => m
  end.

(** What the outer [catch] dispatches, from the way the [try] completes. *)
Definition is_abort (e : Err) : bool := jsstring_eqb (err_name e) (lit "AbortError").

Definition caught (c : Completion unit) : list Action :=
  match c with
  | Throw e => if is_abort e then [] else [ERROR (reported_message e)]
  | _ => []
  end.

(** The component after a failed session: its callback has closed over a
    state with an error. *)
Definition failed_once : FileUpload.t := fst (click FlatJSON.parse ready upload_fails).

(** A stream that closes after one record and the beginning of another. *)
Definition closes_early : list jsstring :=
  [hello_record ++ blank_line ++ late_record ++ [newline]].

(** The stream request is answered with status 404, though with a body. *)
Definition stream_refused : World :=
  mkWorld (Response 200 None) (Response 404 (Some Done)).

Definition closes_early_world : World := streaming (chunks closes_early Done).

Definition sample_actions : list Action :=
  [UPDATE_STATUS (Some (lit "Transcribing")); APPEND_TRANSCRIPT (lit "hello");
   APPEND_SUMMARY (lit "recap"); APPEND_TRANSCRIPT (lit "world"); COMPLETE None].

(** A STATUS payload that carries no message. *)
Definition bare_status_record : jsstring := wire "data: {'tag':'STATUS'}".

(** A comment line and a named event around a data record, in two chunks. *)
Definition ping_record : jsstring := lit ": keep-alive".
Definition event_record : jsstring := lit "event: progress".
Definition with_comments_cut : list jsstring :=
  [ping_record ++ blank_line ++ firstn 4 hello_record;
   skipn 4 hello_record ++ blank_line ++ event_record ++ blank_line].

(** * Properties *)

(** ** The reducer *)

(** C6. APPEND_TRANSCRIPT(t) extends the transcript by [t] when it is empty
    and by a space and [t] otherwise, and APPEND_SUMMARY does the same to the
    summary; from an empty transcript, appending hello and world gives
    hello world, and appending the empty string and x gives x. *)
Theorem append_joins_with_one_space :
  (forall s t,
     transcript (streamReducer s (APPEND_TRANSCRIPT t)) =
     match transcript s with
     | [] => transcript s ++ t
     | _ :: _ => transcript s ++ lit " " ++ t
     end)
  /\ (forall s t,
        summary (streamReducer s (APPEND_SUMMARY t)) =
        match summary s with
        | [] => summary s ++ t
        | _ :: _ => summary s ++ lit " " ++ t
        end)
  /\ (forall sm st e ip,
        transcript (reduce (mkState [] sm st e ip)
                           [APPEND_TRANSCRIPT (lit "hello"); APPEND_TRANSCRIPT (lit "world")])
        = lit "hello world")
  /\ (forall sm st e ip,
        transcript (reduce (mkState [] sm st e ip)
                           [APPEND_TRANSCRIPT (lit ""); APPEND_TRANSCRIPT (lit "x")])
        = lit "x").
Proof.
  repeat split.
  - intros s t. simpl. now destruct (transcript s).
  - intros s t. simpl. now destruct (summary s).
Qed.

(** C8, as the specification words it, fails on the status text: the status
    after ERROR(boom) is not the string error: boom. *)
Lemma ERROR_status_is_not_lowercase_prefix :
  let s' := streamReducer initialState (ERROR (lit "boom")) in
  ~ (isProcessing s' = false /\ error s' = Some (lit "boom")
     /\ statusMessage s' = Some (lit "error: " ++ lit "boom")).
Proof. cbv zeta. intros (_ & _ & H). discriminate H. Qed.

(** C8, amended. ERROR(t) yields a state with isProcessing false, error t and
    the status made of the cross mark U+274C, the text " Error: " and t; the
    transcript and the summary are kept, and the transition is a terminal
    one. *)
Theorem ERROR_transition :
  forall s t,
    let s' := streamReducer s (ERROR t) in
    isProcessing s' = false
    /\ error s' = Some t
    /\ statusMessage s' = Some (cross_mark ++ lit " Error: " ++ t)
    /\ transcript s' = transcript s
    /\ summary s' = summary s
    /\ is_terminal (ERROR t) = true.
Proof. intros s t. repeat split. Qed.

(** ** Strings *)

Lemma jsstring_eqb_eq (a b : jsstring) : jsstring_eqb a b = true <-> a = b.
Proof.
  revert b; induction a as [|x a IH]; intros [|y b]; simpl; split; intro H;
    try reflexivity; try discriminate.
  - apply andb_true_iff in H as [Hx Hab].
    apply N.eqb_eq in Hx. apply IH in Hab. now subst.
  - injection H as -> ->. rewrite N.eqb_refl. now apply IH.
Qed.

Lemma jsstring_eqb_refl (a : jsstring) : jsstring_eqb a a = true.
Proof. now apply jsstring_eqb_eq. Qed.

Lemma startsWith_length (p s : jsstring) :
  startsWith p s = true -> length p <= length s.
Proof.
  revert s; induction p as [|x p IH]; intros [|y s]; simpl; intro H;
    try lia; try discriminate.
  apply andb_true_iff in H as [_ H]. apply IH in H. lia.
Qed.

Lemma startsWith_app_l (p s t : jsstring) :
  startsWith p s = true -> startsWith p (s ++ t) = true.
Proof.
  revert s; induction p as [|x p IH]; intros [|y s]; simpl; intro H;
    try reflexivity; try discriminate.
  apply andb_true_iff in H as [Hx H]. rewrite Hx. now apply IH.
Qed.

Lemma startsWith_app_inv (p s t : jsstring) :
  length p <= length s -> startsWith p (s ++ t) = true -> startsWith p s = true.
Proof.
  revert s; induction p as [|x p IH]; intros [|y s]; simpl; intros L H;
    try reflexivity; try lia.
  apply andb_true_iff in H as [Hx H]. rewrite Hx. apply IH; [lia | exact H].
Qed.

Lemma startsWith_self_app (p t : jsstring) : startsWith p (p ++ t) = true.
Proof.
  induction p as [|x p IH]; simpl; [reflexivity|].
  now rewrite N.eqb_refl.
Qed.

Lemma indexOf_unfold (p s : jsstring) :
  indexOf p s =
  if startsWith p s then Some 0
  else match s with
       | [] => None
       | _ :: s' => option_map S (indexOf p s')
       end.
Proof. destruct s; reflexivity. Qed.

Lemma indexOf_bound (p s : jsstring) (i : nat) :
  indexOf p s = Some i -> i + length p <= length s.
Proof.
  revert i; induction s as [|c s IH]; intro i; rewrite indexOf_unfold;
    destruct (startsWith p _) eqn:E.
  - intro H; injection H as <-. now apply startsWith_length in E.
  - discriminate.
  - intro H; injection H as <-. now apply startsWith_length in E.
  - destruct (indexOf p s) as [j|]; simpl; [|discriminate].
    intro H; injection H as <-. specialize (IH j eq_refl). simpl. lia.
Qed.

(** A match found in a text is still the first one when the text grows. *)
Lemma indexOf_app_l (p s t : jsstring) (i : nat) :
  indexOf p s = Some i -> indexOf p (s ++ t) = Some i.
Proof.
  revert i; induction s as [|c s IH]; intro i; rewrite indexOf_unfold;
    destruct (startsWith p _) eqn:E.
  - intro H; injection H as <-.
    rewrite indexOf_unfold. now rewrite (startsWith_app_l _ _ t E).
  - discriminate.
  - intro H; injection H as <-.
    rewrite indexOf_unfold. now rewrite (startsWith_app_l _ _ t E).
  - destruct (indexOf p s) as [j|] eqn:Ej; intro H; [|discriminate].
    injection H as <-.
    rewrite indexOf_unfold.
    destruct (startsWith p ((c :: s) ++ t)) eqn:E'.
    + apply startsWith_app_inv in E'; [congruence|].
      apply indexOf_bound in Ej. simpl. lia.
    + cbn [app]. now rewrite (IH j eq_refl).
Qed.

Lemma startsWith_blank (c d : N) (s : jsstring) :
  startsWith blank_line (c :: d :: s) = N.eqb newline c && (N.eqb newline d && true).
Proof. reflexivity. Qed.

(** The blank line after a delimited record is the first one of the text. *)
Lemma delimited_indexOf (r t : jsstring) :
  delimited r = true ->
  indexOf blank_line (r ++ blank_line ++ t) = Some (length r).
Proof.
  unfold delimited.
  induction r as [|c r IH]; intro H.
  - reflexivity.
  - rewrite indexOf_unfold in H.
    destruct (startsWith blank_line (c :: r)) eqn:E; [discriminate|].
    destruct (indexOf blank_line r) as [j|] eqn:Ej; [discriminate|].
    simpl option_map in H. cbv iota in H.
    assert (Hr : indexOf blank_line (r ++ blank_line ++ t) = Some (length r)).
    { apply IH. destruct r as [|d r]; [reflexivity|]. exact H. }
    rewrite indexOf_unfold.
    replace (startsWith blank_line ((c :: r) ++ blank_line ++ t)) with false.
    + rewrite <- app_comm_cons, Hr. reflexivity.
    + symmetry. destruct r as [|d r].
      * change (startsWith blank_line ([c] ++ blank_line ++ t))
          with (startsWith blank_line (c :: newline :: newline :: t)).
        rewrite startsWith_blank. cbn [last] in H.
        apply negb_true_iff in H. rewrite N.eqb_sym in H. now rewrite H.
      * change (startsWith blank_line ((c :: d :: r) ++ blank_line ++ t))
          with (startsWith blank_line (c :: d :: r ++ blank_line ++ t)).
        now rewrite startsWith_blank in *.
Qed.

(** ** The frames of a text *)

Lemma scan_fuel (n m : nat) (text : jsstring) :
  length text <= n -> length text <= m -> scan n text = scan m text.
Proof.
  revert m text; induction n as [|n IH]; intros m text Hn Hm.
  - destruct text; [|simpl in Hn; lia]. now destruct m.
  - destruct m as [|m].
    + destruct text; [|simpl in Hm; lia]. reflexivity.
    + simpl. destruct (indexOf blank_line text) as [i|] eqn:Ei; [|reflexivity].
      destruct (is_done_frame _); [reflexivity|].
      apply indexOf_bound in Ei. simpl in Ei.
      rewrite (IH m); [reflexivity| |]; unfold substring_from;
        rewrite length_skipn; lia.
Qed.

Lemma decode_none (text : jsstring) :
  indexOf blank_line text = None -> decode text = ([], text, false).
Proof.
  unfold decode. intro H. destruct (length text); simpl; now rewrite H.
Qed.

Lemma decode_step (text : jsstring) (i : nat) :
  indexOf blank_line text = Some i ->
  decode text =
  let message := trim (substring_to i text) in
  let rest := substring_from (i + 2) text in
  if is_done_frame message then ([message], rest, true)
  else let '(fs, r, d) := decode rest in (message :: fs, r, d).
Proof.
  intro H. unfold decode at 1.
  destruct (length text) as [|n] eqn:L.
  - apply indexOf_bound in H. simpl in H. lia.
  - simpl. rewrite H. destruct (is_done_frame _); [reflexivity|].
    unfold decode. rewrite (scan_fuel n (length (substring_from (i + 2) text)));
      [reflexivity| |lia].
    apply indexOf_bound in H. simpl in H.
    unfold substring_from. rewrite length_skipn. lia.
Qed.

(** Induction along the frames of a text. *)
Lemma frames_ind (P : jsstring -> Prop) :
  (forall text, indexOf blank_line text = None -> P text) ->
  (forall text i, indexOf blank_line text = Some i ->
                  P (substring_from (i + 2) text) -> P text) ->
  forall text, P text.
Proof.
  intros Hnone Hsome text.
  remember (length text) as n eqn:L.
  revert text L. induction n as [n IH] using lt_wf_ind. intros text L.
  destruct (indexOf blank_line text) as [i|] eqn:Ei.
  - apply (Hsome text i Ei).
    apply (IH (length (substring_from (i + 2) text))); [|reflexivity].
    apply indexOf_bound in Ei. simpl in Ei.
    unfold substring_from. rewrite length_skipn. lia.
  - now apply Hnone.
Qed.

(** What is left after the frames holds no blank line, unless the sentinel
    stopped the scan. *)
Lemma decode_rest (text : jsstring) :
  forall fs r, decode text = (fs, r, false) -> indexOf blank_line r = None.
Proof.
  induction text as [text Hn | text i Hi IH] using frames_ind; intros fs r.
  - rewrite (decode_none _ Hn). intro H. now injection H as <- <-.
  - rewrite (decode_step _ _ Hi). cbv zeta.
    destruct (is_done_frame _); [discriminate|].
    destruct (decode (substring_from (i + 2) text)) as [[fs' r'] d'].
    intro H. injection H as <- <- ->. now apply (IH fs').
Qed.

(** Decoding a text that grows: the frames of the first part, then those of
    what it left followed by the new part. *)
Lemma decode_app (text c : jsstring) :
  decode (text ++ c) =
  let '(fs, r, d) := decode text in
  if d then (fs, r ++ c, true)
  else let '(fs', r', d') := decode (r ++ c) in (fs ++ fs', r', d').
Proof.
  induction text as [text Hn | text i Hi IH] using frames_ind.
  - rewrite (decode_none _ Hn). now destruct (decode (text ++ c)) as [[? ?] ?].
  - rewrite (decode_step _ _ (indexOf_app_l _ _ c _ Hi)), (decode_step _ _ Hi).
    cbv zeta. pose proof (indexOf_bound _ _ _ Hi) as B. simpl in B.
    unfold substring_to, substring_from in *.
    rewrite firstn_app, skipn_app.
    replace (i - length text) with 0 by lia.
    replace (i + 2 - length text) with 0 by lia.
    simpl firstn. simpl skipn. rewrite app_nil_r.
    destruct (is_done_frame _); [reflexivity|].
    rewrite IH.
    destruct (decode (skipn (i + 2) text)) as [[fs r] d].
    destruct d; [reflexivity|].
    now destruct (decode (r ++ c)) as [[fs' r'] d'].
Qed.

Lemma decode_record (r t : jsstring) :
  delimited r = true ->
  decode (r ++ blank_line ++ t) =
  if is_done_frame (trim r) then ([trim r], t, true)
  else let '(fs, r', d) := decode t in (trim r :: fs, r', d).
Proof.
  intro D. rewrite (decode_step _ _ (delimited_indexOf r t D)). cbv zeta.
  unfold substring_to, substring_from.
  rewrite firstn_app, firstn_all, Nat.sub_diag. simpl firstn. rewrite app_nil_r.
  rewrite skipn_app, skipn_all2 by lia.
  replace (length r + 2 - length r) with 2 by lia.
  reflexivity.
Qed.

(** The frames of a text made of plain records are the trimmed records. *)
Lemma decode_records (rs : list jsstring) (t : jsstring) :
  Forall (fun r => plain_record r = true) rs ->
  decode (records_text rs ++ t) =
  let '(fs, r, d) := decode t in (map trim rs ++ fs, r, d).
Proof.
  induction 1 as [|r rs Hr _ IH].
  - simpl. now destruct (decode t) as [[? ?] ?].
  - unfold plain_record in Hr. apply andb_true_iff in Hr as [D ND].
    apply negb_true_iff in ND.
    unfold records_text in *. cbn [map concat].
    rewrite <- !app_assoc. rewrite (decode_record _ _ D), ND, IH.
    now destruct (decode t) as [[? ?] ?].
Qed.

(** ** The handler, step by step *)

Ltac unfold_store :=
  unfold pulled, absorb, dispatch, console_log, modify, get, ret, throw, return_, bind,
    with_dispatched, with_console, with_isStreamSuccessful, with_reader,
    with_buffer, with_controller, with_frames, with_reads in *.

Section EngineProps.
Variable JSON_parse : jsstring -> option Payload.t.

Ltac store_eq :=
  repeat match goal with s : Store |- _ => destruct s end;
  unfold_store; cbn; rewrite ?app_nil_r, <- ?app_assoc; cbn; reflexivity.

(** One frame: it adds its actions and console entries, raises the success
    flag when it is the sentinel, and touches nothing else. *)
Lemma handle_message_spec (m : jsstring) (s : Store) :
  handle_message JSON_parse m s =
  (if is_done_frame m then Return else Normal tt,
   mkStore (dispatched s ++ frame_actions JSON_parse m)
           (console s ++ frame_logs JSON_parse m)
           (is_done_frame m || isStreamSuccessful s) (reader s) (buffer s)
           (controller s) (frames s) (reads s)).
Proof.
  unfold frame_actions, frame_logs, is_done_frame, handle_message, when.
  destruct (startsWith (lit "data:") m); [|store_eq].
  cbv zeta. rewrite andb_true_l.
  destruct (jsstring_eqb _ done_token); [store_eq|].
  unfold try_catch, apply_payload.
  destruct (JSON_parse _) as [data|]; [|store_eq].
  unfold when, bind.
  destruct (is_string (Payload.tag data) (lit "STATUS"));
    destruct (is_string (Payload.tag data) (lit "ERROR"));
    destruct (truthy (Payload.transcript data));
    destruct (truthy (Payload.summary data)); store_eq.
Qed.

Lemma process_messages_spec (n : nat) (s : Store) :
  process_messages JSON_parse n s =
  let '(fs, rest, d) := scan n (buffer s) in
  (if d then Return else Normal tt, absorb JSON_parse fs rest d s).
Proof.
  revert s; induction n as [|n IH]; intro s.
  - cbn [process_messages scan]. unfold bind, get.
    destruct (indexOf blank_line (buffer s)); store_eq.
  - cbn [process_messages scan]. unfold bind at 1. unfold get.
    destruct (indexOf blank_line (buffer s)) as [i|]; [|store_eq].
    cbv zeta. unfold bind, modify. rewrite handle_message_spec.
    destruct (is_done_frame _) eqn:E; [store_eq|].
    rewrite IH. cbn [buffer].
    destruct (scan n _) as [[fs r] d]. unfold absorb. destruct s. cbn.
    now rewrite <- !app_assoc.
Qed.

Lemma drain_spec (s : Store) :
  drain JSON_parse s =
  let '(fs, rest, d) := decode (buffer s) in
  (if d then Return else Normal tt, absorb JSON_parse fs rest d s).
Proof. unfold drain, bind, get. apply process_messages_spec. Qed.

Lemma read_loop_Chunk (v : jsstring) (rest : Stream) (s : Store) :
  read_loop JSON_parse (Chunk v rest) s =
  let '(fs, r, d) := decode (buffer s ++ v) in
  if d then (Return, absorb JSON_parse fs r true (pulled 1 s))
  else read_loop JSON_parse rest (absorb JSON_parse fs r false (pulled 1 s)).
Proof.
  cbn [read_loop]. unfold bind, modify. rewrite drain_spec. cbn [buffer with_buffer].
  destruct (decode _) as [[fs r] d]. destruct d; f_equal; store_eq.
Qed.

Lemma absorb_absorb (fs1 fs2 : list jsstring) (r1 r2 : jsstring) (d : bool)
      (j k : nat) (s : Store) :
  absorb JSON_parse fs2 r2 d (pulled k (absorb JSON_parse fs1 r1 false (pulled j s))) =
  absorb JSON_parse (fs1 ++ fs2) r2 d (pulled (j + k) s).
Proof.
  destruct s. unfold_store. cbn.
  rewrite !flat_map_app, <- !app_assoc. f_equal. lia.
Qed.

(** The read loop over a stream that delivers the chunks [cs] first: what
    it does depends on the text the chunks add up to, not on where they are
    cut.  Without a sentinel in that text, every chunk is pulled and the
    loop goes on with the rest of the stream; with one, the loop returns at
    the first chunk that completes the sentinel's record. *)
Lemma read_loop_chunks (cs : list jsstring) :
  forall (e : Stream) (s : Store),
    indexOf blank_line (buffer s) = None ->
    match decode (buffer s ++ concat cs) with
    | (fs, r, false) =>
        read_loop JSON_parse (chunks cs e) s =
        read_loop JSON_parse e (absorb JSON_parse fs r false (pulled (length cs) s))
    | (fs, r, true) =>
        exists k b,
          0 < k <= length cs /\
          b ++ concat (skipn k cs) = r /\
          snd (decode (buffer s ++ concat (firstn (k - 1) cs))) = false /\
          read_loop JSON_parse (chunks cs e) s =
          (Return, absorb JSON_parse fs b true (pulled k s))
    end.
Proof.
  induction cs as [|c cs IH]; intros e s Hs.
  - cbn [concat]. rewrite app_nil_r, (decode_none _ Hs).
    cbn [chunks fold_right length]. f_equal. store_eq.
  - cbn [chunks fold_right concat length]. fold (chunks cs e).
    rewrite read_loop_Chunk, app_assoc, decode_app.
    destruct (decode (buffer s ++ c)) as [[fs1 r1] d1] eqn:E1.
    destruct d1.
    + exists 1, r1. repeat split; try lia.
      cbn [Nat.sub firstn concat]. now rewrite app_nil_r, (decode_none _ Hs).
    + pose proof (decode_rest _ _ _ E1) as Hr1.
      specialize (IH e (absorb JSON_parse fs1 r1 false (pulled 1 s)) Hr1).
      cbn [absorb buffer] in IH.
      destruct (decode (r1 ++ concat cs)) as [[fs2 r2] d2].
      destruct d2.
      * destruct IH as (k & b & Hk & Hb & Hmin & Heq).
        exists (S k), b. repeat split; try lia.
        -- exact Hb.
        -- replace (S k - 1) with (S (k - 1)) by lia.
           cbn [firstn concat]. rewrite app_assoc, decode_app, E1.
           now destruct (decode (r1 ++ concat (firstn (k - 1) cs))) as [[? ?] ?].
        -- rewrite Heq. f_equal. now rewrite absorb_absorb.
      * rewrite IH. f_equal. now rewrite absorb_absorb.
Qed.

Lemma handler_unfold (f : File) (state : State) (w : World) (s : Store) :
  isProcessing state = false ->
  handleUploadAndAnalyze JSON_parse (Some f) state w s =
  try_finally (try_catch (try_block JSON_parse w) catch_block)
              (finally_block state) (begun s).
Proof.
  intro H. unfold handleUploadAndAnalyze. rewrite H.
  unfold bind at 1 2 3 4. unfold dispatch, modify. cbn [fst snd].
  reflexivity.
Qed.

Lemma try_block_opened (w : World) (body : Stream) (s : Store) :
  opened w = Some body ->
  try_block JSON_parse w s = read_loop JSON_parse body (reading s).
Proof.
  unfold opened, try_block. destruct w as [[u bu|eu] [v [b|]|ev]]; cbn [upload stream];
    try discriminate.
  destruct (ok u) eqn:Eu; [|discriminate].
  destruct (ok v) eqn:Ev; [|discriminate].
  cbn [andb]. intro H. injection H as <-.
  unfold await_fetch, when. unfold bind at 1 2 3 4. unfold dispatch, modify, ret.
  cbn [fst snd]. rewrite Eu. cbn [negb].
  unfold bind at 1. cbn [fst snd]. rewrite Ev.
  unfold bind, modify, reading. f_equal. store_eq.
Qed.

Lemma finally_block_spec (state : State) (s : Store) :
  finally_block state s =
  (Normal tt,
   mkStore (dispatched s ++ closing state s) (console s) (isStreamSuccessful s)
           (option_map (fun _ => true) (reader s)) (buffer s)
           (option_map (fun _ => true) (controller s)) (frames s) (reads s)).
Proof.
  unfold finally_block, closing, when. destruct s as [d c su r b ct fr rd].
  unfold_store. cbn.
  destruct r, su, (truthy (error state)), ct as [[|]|]; cbn;
    rewrite ?app_nil_r; reflexivity.
Qed.

(** The store a started session leaves, from the way its [try] completes. *)
Lemma run_started (f : File) (state : State) (w : World) (s : Store) :
  isProcessing state = false ->
  run JSON_parse (Some f) state w s =
  snd (finally_block state
         (match try_block JSON_parse w (begun s) with
          | (Throw e, s1) => snd (catch_block e s1)
          | (_, s1) => s1
          end)).
Proof.
  intro H. unfold run. rewrite (handler_unfold f state w s H).
  unfold try_finally, try_catch.
  destruct (try_block JSON_parse w (begun s)) as [[a|e|] s1].
  - now rewrite finally_block_spec.
  - destruct (catch_block e s1) as [c s2] eqn:E. cbn [snd].
    now rewrite finally_block_spec.
  - now rewrite finally_block_spec.
Qed.

(** ** The interpretation of one frame *)

Lemma frame_actions_data (m : jsstring) (data : Payload.t) :
  startsWith (lit "data:") m = true ->
  JSON_parse (body_of m) = Some data ->
  frame_actions JSON_parse m =
  if jsstring_eqb (body_of m) done_token then [] else payload_actions data.
Proof.
  intros Hm Hp. unfold frame_actions, handle_message, when. rewrite Hm. cbv zeta.
  fold (body_of m). destruct (jsstring_eqb (body_of m) done_token); [reflexivity|].
  unfold try_catch, apply_payload. rewrite Hp. unfold payload_actions, when, bind.
  destruct (is_string (Payload.tag data) (lit "STATUS"));
    destruct (is_string (Payload.tag data) (lit "ERROR"));
    destruct (truthy (Payload.transcript data));
    destruct (truthy (Payload.summary data)); reflexivity.
Qed.

Lemma frame_actions_malformed (m : jsstring) :
  JSON_parse (body_of m) = None ->
  frame_actions JSON_parse m = [].
Proof.
  intro Hp. unfold frame_actions, handle_message, when.
  destruct (startsWith (lit "data:") m); [|reflexivity]. cbv zeta.
  fold (body_of m). destruct (jsstring_eqb (body_of m) done_token); [reflexivity|].
  unfold try_catch, apply_payload. now rewrite Hp.
Qed.

Lemma frame_actions_other (m : jsstring) :
  startsWith (lit "data:") m = false ->
  frame_actions JSON_parse m = [].
Proof.
  intro Hm. unfold frame_actions, handle_message, when. now rewrite Hm.
Qed.

Lemma payload_actions_transcript (data : Payload.t) (t : jsstring) :
  In (APPEND_TRANSCRIPT t) (payload_actions data) ->
  Payload.transcript data = Some t /\ t <> [].
Proof.
  unfold payload_actions.
  destruct (is_string (Payload.tag data) (lit "STATUS"));
    destruct (is_string (Payload.tag data) (lit "ERROR"));
    destruct (Payload.transcript data) as [[|c l]|];
    destruct (truthy (Payload.summary data)); cbn;
    intuition (try discriminate);
    match goal with H : APPEND_TRANSCRIPT _ = APPEND_TRANSCRIPT _ |- _ =>
      injection H as <- end; discriminate || reflexivity.
Qed.

Lemma payload_actions_summary (data : Payload.t) (t : jsstring) :
  In (APPEND_SUMMARY t) (payload_actions data) ->
  Payload.summary data = Some t /\ t <> [].
Proof.
  unfold payload_actions.
  destruct (is_string (Payload.tag data) (lit "STATUS"));
    destruct (is_string (Payload.tag data) (lit "ERROR"));
    destruct (truthy (Payload.transcript data));
    destruct (Payload.summary data) as [[|c l]|]; cbn;
    intuition (try discriminate);
    match goal with H : APPEND_SUMMARY _ = APPEND_SUMMARY _ |- _ =>
      injection H as <- end; discriminate || reflexivity.
Qed.

(** C10. A parsed payload whose transcript (summary) is the empty string
    causes no APPEND_TRANSCRIPT (APPEND_SUMMARY): an append dispatched for
    a frame carries the payload's fragment, and that fragment is not
    empty. *)
Theorem empty_fragment_is_not_appended :
  forall (m : jsstring) (data : Payload.t) (s : Store),
    startsWith (lit "data:") m = true ->
    JSON_parse (body_of m) = Some data ->
    exists acts,
      dispatched (snd (handle_message JSON_parse m s)) = dispatched s ++ acts
      /\ (Payload.transcript data = Some [] ->
          forall t, ~ In (APPEND_TRANSCRIPT t) acts)
      /\ (Payload.summary data = Some [] ->
          forall t, ~ In (APPEND_SUMMARY t) acts)
      /\ (forall t, In (APPEND_TRANSCRIPT t) acts ->
                    Payload.transcript data = Some t /\ t <> [])
      /\ (forall t, In (APPEND_SUMMARY t) acts ->
                    Payload.summary data = Some t /\ t <> []).
Proof.
  intros m data s Hm Hp. exists (frame_actions JSON_parse m).
  rewrite handle_message_spec. cbn [snd dispatched].
  rewrite (frame_actions_data m data Hm Hp).
  destruct (jsstring_eqb (body_of m) done_token).
  - split; [reflexivity|]. repeat split; intros; try (intros []); contradiction.
  - split; [reflexivity|]. split; [|split; [|split]].
    + intros He t Hin. apply payload_actions_transcript in Hin as [E N].
      rewrite He in E. injection E as <-. now apply N.
    + intros He t Hin. apply payload_actions_summary in Hin as [E N].
      rewrite He in E. injection E as <-. now apply N.
    + intro t. apply payload_actions_transcript.
    + intro t. apply payload_actions_summary.
Qed.

(** A parsed payload with tag ERROR: the [throw] is caught by the inner
    [catch], which reports it on the console; nothing is dispatched and the
    loop goes on. *)
Lemma error_payload_is_caught (m : jsstring) (data : Payload.t) (s : Store) :
  startsWith (lit "data:") m = true ->
  jsstring_eqb (body_of m) done_token = false ->
  JSON_parse (body_of m) = Some data ->
  Payload.tag data = Some (lit "ERROR") ->
  handle_message JSON_parse m s =
  (Normal tt,
   with_console
     (fun l => l ++ [error_parse (body_of m)
                       (Error_ (string_or_empty (Payload.message data)))]) s).
Proof.
  intros Hm Hd Hp Ht. unfold handle_message, when. rewrite Hm. cbv zeta.
  fold (body_of m). rewrite Hd. unfold try_catch, apply_payload. rewrite Hp, Ht.
  reflexivity.
Qed.

(** ** The frames of a stream *)

Lemma data_record_plain (r : jsstring) :
  data_record JSON_parse r = true -> plain_record r = true.
Proof.
  unfold data_record, plain_record, is_done_frame. fold (body_of (trim r)).
  intro H. repeat (apply andb_true_iff in H as [H ?]).
  rewrite H. cbn [andb]. apply negb_true_iff. apply andb_false_iff. right.
  now apply negb_true_iff.
Qed.

Lemma malformed_record_plain (r : jsstring) :
  malformed_record JSON_parse r = true -> plain_record r = true.
Proof.
  unfold malformed_record, plain_record, is_done_frame. fold (body_of (trim r)).
  intro H. repeat (apply andb_true_iff in H as [H ?]).
  rewrite H. cbn [andb]. apply negb_true_iff. apply andb_false_iff. right.
  now apply negb_true_iff.
Qed.

Lemma data_record_actions (r : jsstring) :
  data_record JSON_parse r = true ->
  frame_actions JSON_parse (trim r) = record_actions JSON_parse r.
Proof.
  unfold data_record, record_actions. intro H.
  repeat (apply andb_true_iff in H as [H ?]).
  destruct (JSON_parse (body_of (trim r))) as [data|] eqn:E; [|discriminate].
  rewrite (frame_actions_data (trim r) data) by assumption.
  match goal with H : negb _ = true |- _ => apply negb_true_iff in H; now rewrite H end.
Qed.

Lemma data_records_actions (rs : list jsstring) :
  Forall (fun r => data_record JSON_parse r = true) rs ->
  flat_map (frame_actions JSON_parse) (map trim rs) =
  flat_map (record_actions JSON_parse) rs.
Proof.
  induction 1 as [|r rs Hr _ IH]; [reflexivity|].
  cbn [map flat_map]. now rewrite IH, data_record_actions.
Qed.

Lemma malformed_record_spec (r : jsstring) :
  malformed_record JSON_parse r = true ->
  frame_actions JSON_parse (trim r) = []
  /\ frame_logs JSON_parse (trim r) = [error_parse (body_of (trim r)) parse_error].
Proof.
  unfold malformed_record. intro H.
  repeat (apply andb_true_iff in H as [H ?]).
  destruct (JSON_parse (body_of (trim r))) as [data|] eqn:E; [discriminate|].
  split; [now apply frame_actions_malformed|].
  unfold frame_logs, handle_message, when.
  match goal with H : startsWith _ _ = true |- _ => rewrite H end.
  cbv zeta. fold (body_of (trim r)).
  match goal with H : negb _ = true |- _ => apply negb_true_iff in H; rewrite H end.
  unfold try_catch, apply_payload. now rewrite E.
Qed.

Lemma Forall_plain_of_data (rs : list jsstring) :
  Forall (fun r => data_record JSON_parse r = true) rs ->
  Forall (fun r => plain_record r = true) rs.
Proof.
  intro H. eapply Forall_impl; [|exact H]. intros r. apply data_record_plain.
Qed.

Lemma read_loop_Done (s : Store) :
  read_loop JSON_parse Done s =
  (Normal tt, with_console (fun l => l ++ [log_reader_finished]) s).
Proof. reflexivity. Qed.

Lemma read_loop_ReadRejected (err : Err) (s : Store) :
  read_loop JSON_parse (ReadRejected err) s = (Throw err, s).
Proof. reflexivity. Qed.

(** The read loop over chunks that add up to plain records and a last piece
    of text without a blank line. *)
Lemma read_loop_plain (cs rs : list jsstring) (tail : jsstring) (e : Stream) (s : Store) :
  buffer s = [] ->
  Forall (fun r => plain_record r = true) rs ->
  indexOf blank_line tail = None ->
  concat cs = records_text rs ++ tail ->
  read_loop JSON_parse (chunks cs e) s =
  read_loop JSON_parse e
    (absorb JSON_parse (map trim rs) tail false (pulled (length cs) s)).
Proof.
  intros Hb Hrs Ht Hcs.
  pose proof (read_loop_chunks cs e s) as L.
  rewrite Hb in L. specialize (L eq_refl). cbn [app] in L.
  rewrite Hcs, (decode_records rs tail Hrs), (decode_none tail Ht) in L.
  now rewrite app_nil_r in L.
Qed.

(** C4. Whatever the chunks a text of N well-formed [data:] records, each
    followed by its blank line, arrives in, the read loop takes exactly the
    N records out of it as frames, each once and in order: when the stream
    then closes, or its next read fails, the loop has pulled every chunk, its
    frames are the N trimmed records after those it had, and the buffer is
    empty; when the stream goes on, the loop goes on from that store; and
    the frames of a whole session over such a stream are the N records. *)
Theorem decoder_is_chunking_invariant :
  forall (cs rs : list jsstring) (s : Store),
    buffer s = [] ->
    Forall (fun r => data_record JSON_parse r = true) rs ->
    concat cs = records_text rs ->
    (let r := read_loop JSON_parse (chunks cs Done) s in
     fst r = Normal tt
     /\ frames (snd r) = frames s ++ map trim rs
     /\ length (frames (snd r)) = length (frames s) + length rs
     /\ buffer (snd r) = []
     /\ reads (snd r) = length cs + reads s)
    /\ (forall err,
          let r := read_loop JSON_parse (chunks cs (ReadRejected err)) s in
          fst r = Throw err
          /\ frames (snd r) = frames s ++ map trim rs
          /\ buffer (snd r) = []
          /\ reads (snd r) = length cs + reads s)
    /\ (forall e,
          read_loop JSON_parse (chunks cs e) s =
          read_loop JSON_parse e
            (absorb JSON_parse (map trim rs) [] false (pulled (length cs) s)))
    /\ (forall f state w,
          isProcessing state = false ->
          opened w = Some (chunks cs Done) ->
          frames (run JSON_parse (Some f) state w empty_store) = map trim rs
          /\ reads (run JSON_parse (Some f) state w empty_store) = length cs).
Proof.
  intros cs rs s Hb Hrs Hcs.
  assert (Hp := Forall_plain_of_data rs Hrs).
  assert (Hcs' : concat cs = records_text rs ++ []) by now rewrite app_nil_r.
  assert (L : forall e s0, buffer s0 = [] ->
            read_loop JSON_parse (chunks cs e) s0 =
            read_loop JSON_parse e
              (absorb JSON_parse (map trim rs) [] false (pulled (length cs) s0))).
  { intros e s0 H0. now apply read_loop_plain. }
  split; [|split; [|split]].
  - rewrite (L Done s Hb), read_loop_Done. cbn.
    repeat split. now rewrite length_app, length_map.
  - intro err. rewrite (L (ReadRejected err) s Hb), read_loop_ReadRejected. cbn.
    repeat split.
  - intro e. now apply L.
  - intros f state w Hproc Hw.
    rewrite (run_started f state w empty_store Hproc), (try_block_opened w _ _ Hw).
    rewrite (L Done (reading (begun empty_store)) eq_refl), read_loop_Done.
    rewrite finally_block_spec. cbn. now rewrite Nat.add_0_r.
Qed.

Lemma done_frame_spec (m : jsstring) :
  is_done_frame m = true ->
  frame_actions JSON_parse m = [] /\ frame_logs JSON_parse m = [log_done].
Proof.
  unfold is_done_frame, frame_actions, frame_logs, handle_message, when.
  intro H. apply andb_true_iff in H as [H1 H2]. now rewrite H1, H2.
Qed.

Lemma flat_map_done (fs : list jsstring) (m : jsstring) :
  is_done_frame m = true ->
  flat_map (frame_actions JSON_parse) (fs ++ [m]) =
  flat_map (frame_actions JSON_parse) fs.
Proof.
  intro H. rewrite flat_map_app. cbn [flat_map].
  destruct (done_frame_spec m H) as [-> _]. now rewrite !app_nil_r.
Qed.

(** C5. When the stream's text holds a sentinel record after some records
    that are not, the session takes the frames up to and including the
    sentinel and no more: it has pulled chunks only until the one that
    completes the sentinel's record, the text after that record lies
    unprocessed in the buffer and in the chunks not pulled, the success flag
    is set, and the cleanup's COMPLETE is the last action dispatched. *)
Theorem done_ends_the_session :
  forall (f : File) (state : State) (w : World) (cs rs : list jsstring)
         (e : Stream) (d leftover : jsstring),
    isProcessing state = false ->
    opened w = Some (chunks cs e) ->
    Forall (fun r => plain_record r = true) rs ->
    delimited d = true ->
    is_done_frame (trim d) = true ->
    concat cs = records_text rs ++ d ++ blank_line ++ leftover ->
    let s := run JSON_parse (Some f) state w empty_store in
    frames s = map trim rs ++ [trim d]
    /\ dispatched s =
       prelude ++ flat_map (frame_actions JSON_parse) (map trim rs)
               ++ [COMPLETE (Some complete_status)]
    /\ isStreamSuccessful s = true
    /\ 0 < reads s <= length cs
    /\ buffer s ++ concat (skipn (reads s) cs) = leftover
    /\ snd (decode (concat (firstn (reads s - 1) cs))) = false.
Proof.
  intros f state w cs rs e d leftover Hp Hw Hrs Hd Hdone Hcs s.
  subst s. rewrite (run_started f state w empty_store Hp).
  rewrite (try_block_opened w _ _ Hw).
  pose proof (read_loop_chunks cs e (reading (begun empty_store)) eq_refl) as L.
  cbn [reading buffer app] in L. rewrite Hcs in L.
  rewrite (decode_records rs _ Hrs), (decode_record d leftover Hd), Hdone in L.
  destruct L as (k & b & Hk & Hb & Hmin & ->).
  rewrite finally_block_spec. cbn.
  rewrite flat_map_done by assumption.
  repeat split; try lia; try assumption.
  - now rewrite Nat.add_0_r.
  - now rewrite Nat.add_0_r.
Qed.

Lemma payload_actions_nonterminal (data : Payload.t) :
  Forall (fun a => is_terminal a = false) (payload_actions data).
Proof.
  unfold payload_actions.
  destruct (is_string (Payload.tag data) (lit "STATUS"));
    destruct (is_string (Payload.tag data) (lit "ERROR"));
    destruct (truthy (Payload.transcript data));
    destruct (truthy (Payload.summary data)); cbn; repeat constructor.
Qed.

Lemma record_actions_nonterminal (rs : list jsstring) :
  Forall (fun a => is_terminal a = false) (flat_map (record_actions JSON_parse) rs).
Proof.
  induction rs as [|r rs IH]; [constructor|].
  cbn [flat_map]. apply Forall_app. split; [|exact IH].
  unfold record_actions. destruct (JSON_parse _); [|constructor].
  apply payload_actions_nonterminal.
Qed.

(** C7. A [data:] record whose body fails to parse, between well-formed
    records and in whatever chunks the text arrives, does not end the read
    loop: when the stream then closes the loop ends normally, having taken
    every record as a frame and reported the malformed one on the console;
    the actions it has dispatched are those of the records before the
    malformed one followed by those of the records after it, none of them
    terminal, the malformed one adding nothing; and when the stream goes on,
    the loop goes on from that store. *)
Theorem malformed_frame_is_skipped :
  forall (cs rs1 rs2 : list jsstring) (bad : jsstring) (s : Store),
    buffer s = [] ->
    Forall (fun r => data_record JSON_parse r = true) rs1 ->
    malformed_record JSON_parse bad = true ->
    Forall (fun r => data_record JSON_parse r = true) rs2 ->
    concat cs = records_text (rs1 ++ bad :: rs2) ->
    (let r := read_loop JSON_parse (chunks cs Done) s in
     fst r = Normal tt
     /\ dispatched (snd r) =
        dispatched s ++ flat_map (record_actions JSON_parse) rs1
                     ++ flat_map (record_actions JSON_parse) rs2
     /\ Forall (fun a => is_terminal a = false)
               (flat_map (record_actions JSON_parse) rs1
                ++ flat_map (record_actions JSON_parse) rs2)
     /\ frames (snd r) = frames s ++ map trim (rs1 ++ bad :: rs2)
     /\ In (error_parse (body_of (trim bad)) parse_error) (console (snd r))
     /\ isStreamSuccessful (snd r) = isStreamSuccessful s
     /\ reads (snd r) = length cs + reads s)
    /\ frame_actions JSON_parse (trim bad) = []
    /\ (forall e,
          read_loop JSON_parse (chunks cs e) s =
          read_loop JSON_parse e
            (absorb JSON_parse (map trim (rs1 ++ bad :: rs2)) [] false
                    (pulled (length cs) s))).
Proof.
  intros cs rs1 rs2 bad s Hb H1 Hbad H2 Hcs.
  assert (Hall : Forall (fun r => plain_record r = true) (rs1 ++ bad :: rs2)).
  { apply Forall_app. split; [now apply Forall_plain_of_data|].
    constructor; [now apply malformed_record_plain | now apply Forall_plain_of_data]. }
  assert (Hcs' : concat cs = records_text (rs1 ++ bad :: rs2) ++ [])
    by now rewrite app_nil_r.
  assert (L : forall e,
            read_loop JSON_parse (chunks cs e) s =
            read_loop JSON_parse e
              (absorb JSON_parse (map trim (rs1 ++ bad :: rs2)) [] false
                      (pulled (length cs) s))).
  { intro e. now apply read_loop_plain. }
  destruct (malformed_record_spec bad Hbad) as [Ha Hl].
  split; [|split; [exact Ha | exact L]].
  rewrite (L Done), read_loop_Done.
  cbn [fst snd with_console absorb dispatched frames console isStreamSuccessful reads
       pulled with_reads orb].
  split; [reflexivity|]. split; [|split; [|split; [|split; [|split]]]].
  - rewrite map_app, flat_map_app. cbn [map flat_map]. rewrite Ha. cbn [app].
    now rewrite !data_records_actions.
  - apply Forall_app. split; apply record_actions_nonterminal.
  - reflexivity.
  - apply in_or_app. left. apply in_or_app. right.
    rewrite map_app, flat_map_app. apply in_or_app. right.
    cbn [map flat_map]. rewrite Hl. now left.
  - reflexivity.
  - reflexivity.
Qed.

(** ** Terminal transitions *)

Lemma frame_actions_nonterminal (m : jsstring) :
  Forall (fun a => is_terminal a = false) (frame_actions JSON_parse m).
Proof.
  destruct (startsWith (lit "data:") m) eqn:Hm.
  - destruct (JSON_parse (body_of m)) as [data|] eqn:Hp.
    + rewrite (frame_actions_data m data Hm Hp).
      destruct (jsstring_eqb _ _); [constructor | apply payload_actions_nonterminal].
    + rewrite (frame_actions_malformed m Hp). constructor.
  - rewrite (frame_actions_other m Hm). constructor.
Qed.

Lemma frames_actions_nonterminal (fs : list jsstring) :
  Forall (fun a => is_terminal a = false) (flat_map (frame_actions JSON_parse) fs).
Proof.
  induction fs as [|m fs IH]; [constructor|].
  cbn [flat_map]. apply Forall_app. split; [apply frame_actions_nonterminal | exact IH].
Qed.

(** The read loop dispatches no terminal action. *)
Lemma read_loop_nonterminal (r : Stream) :
  forall s, exists l,
    dispatched (snd (read_loop JSON_parse r s)) = dispatched s ++ l
    /\ Forall (fun a => is_terminal a = false) l.
Proof.
  induction r as [v rest IH| |e]; intro s.
  - rewrite read_loop_Chunk. destruct (decode (buffer s ++ v)) as [[fs r] d].
    destruct d.
    + exists (flat_map (frame_actions JSON_parse) fs). split; [reflexivity|].
      apply frames_actions_nonterminal.
    + destruct (IH (absorb JSON_parse fs r false (pulled 1 s))) as (l & E & F).
      exists (flat_map (frame_actions JSON_parse) fs ++ l). split.
      * rewrite E. cbn [absorb dispatched]. now rewrite app_assoc.
      * apply Forall_app. split; [apply frames_actions_nonterminal | exact F].
  - exists []. split; [|constructor]. cbn. now rewrite app_nil_r.
  - exists []. split; [|constructor]. cbn. now rewrite app_nil_r.
Qed.

(** Neither does the whole [try]. *)
Lemma try_block_nonterminal (w : World) (s : Store) :
  exists l,
    dispatched (snd (try_block JSON_parse w s)) = dispatched s ++ l
    /\ Forall (fun a => is_terminal a = false) l.
Proof.
  unfold try_block.
  destruct w as [[u bu|eu] st]; cbn [upload stream].
  2:{ exists [UPDATE_STATUS (Some uploading_status)]. split; [reflexivity|].
      repeat constructor. }
  unfold await_fetch, when. unfold bind at 1 2 3. unfold dispatch, modify, ret.
  cbn [fst snd]. destruct (ok u); cbn [negb].
  2:{ exists [UPDATE_STATUS (Some uploading_status)]. split; [reflexivity|].
      repeat constructor. }
  unfold bind at 1 2. cbn [fst snd].
  destruct st as [v [b|]|ev]; cbn [fst snd].
  - destruct (ok v).
    + unfold bind, modify.
      match goal with |- context [read_loop JSON_parse b ?s0] =>
        destruct (read_loop_nonterminal b s0) as (l & E & F) end.
      exists ([UPDATE_STATUS (Some uploading_status);
               UPDATE_STATUS (Some uploaded_status)] ++ l).
      split.
      * rewrite E. destruct s. cbn. now rewrite <- !app_assoc.
      * apply Forall_app. split; [repeat constructor | exact F].
    + exists [UPDATE_STATUS (Some uploading_status);
              UPDATE_STATUS (Some uploaded_status)].
      split; [destruct s; cbn; now rewrite <- !app_assoc | repeat constructor].
  - exists [UPDATE_STATUS (Some uploading_status);
            UPDATE_STATUS (Some uploaded_status)].
    split; [destruct s; cbn; now rewrite <- !app_assoc | repeat constructor].
  - exists [UPDATE_STATUS (Some uploading_status);
            UPDATE_STATUS (Some uploaded_status)].
    split; [destruct s; cbn; now rewrite <- !app_assoc | repeat constructor].
Qed.

Lemma filter_nonterminal (l : list Action) :
  Forall (fun a => is_terminal a = false) l -> filter is_terminal l = [].
Proof.
  induction 1 as [|a l Ha _ IH]; [reflexivity|]. cbn [filter]. now rewrite Ha.
Qed.

Lemma reduce_app (s : State) (l1 l2 : list Action) :
  reduce s (l1 ++ l2) = reduce (reduce s l1) l2.
Proof. apply fold_left_app. Qed.

(** The success flag is still down when the [try] is left by a [throw]. *)
Lemma try_block_throw_not_successful (w : World) (e : Err) (s1 : Store) :
  try_block JSON_parse w (begun empty_store) = (Throw e, s1) ->
  isStreamSuccessful s1 = false.
Proof.
  unfold try_block.
  destruct w as [[u bu|eu] st]; cbn [upload stream]; unfold await_fetch, when.
  2:{ unfold bind, dispatch, modify, throw. intro H. now injection H as _ <-. }
  unfold bind at 1 2 3. unfold dispatch, modify, ret. cbn [fst snd].
  destruct (ok u); cbn [negb].
  2:{ unfold throw. intro H. now injection H as _ <-. }
  unfold bind at 1 2. cbn [fst snd].
  destruct st as [v [b|]|ev]; cbn [fst snd];
    try (unfold throw; intro H; now injection H as _ <-).
  destruct (ok v); [|unfold throw; intro H; now injection H as _ <-].
  unfold bind, modify.
  match goal with |- read_loop JSON_parse b ?s0 = _ -> _ =>
    generalize (eq_refl : isStreamSuccessful s0 = false); generalize s0 end.
  induction b as [v' rest IH| |e']; intros s0 H0.
  - rewrite read_loop_Chunk. destruct (decode (buffer s0 ++ v')) as [[fs r] d].
    destruct d; [discriminate|]. apply IH. exact H0.
  - discriminate.
  - intro H. injection H as _ <-. exact H0.
Qed.

(** An error that is not an abort: the [catch] dispatches ERROR with its
    message, and the cleanup of a handler whose state had no error dispatches
    the interruption ERROR after it. *)
Lemma catch_then_cleanup_dispatch_twice
      (f : File) (state : State) (w : World) (e : Err) (s1 : Store) :
  isProcessing state = false ->
  truthy (error state) = false ->
  try_block JSON_parse w (begun empty_store) = (Throw e, s1) ->
  jsstring_eqb (err_name e) (lit "AbortError") = false ->
  dispatched (run JSON_parse (Some f) state w empty_store) =
  dispatched s1
  ++ [ERROR (match err_message e with [] => fatal_message | m => m end);
      ERROR interrupted_message].
Proof.
  intros Hp He Ht Hn.
  pose proof (try_block_throw_not_successful w e s1 Ht) as Hs.
  rewrite (run_started f state w empty_store Hp), Ht.
  unfold catch_block. rewrite Hn. unfold bind, console_log, dispatch, modify.
  cbn [snd]. rewrite finally_block_spec. unfold closing.
  unfold with_console, with_dispatched. cbn [snd dispatched console isStreamSuccessful].
  rewrite Hs, He. now rewrite <- app_assoc.
Qed.

(** ** Cancellation *)

(** What the handler does when its [try] is left by an AbortError, in a
    handler whose state had no error when it was created: the abort's own
    error is not dispatched, the cleanup dispatches ERROR with the
    interruption message as the session's only terminal action, and the
    published state ends with isProcessing false and that message as its
    error.  (The component itself calls [abort] in the cleanup only, and has
    no control that cancels a running session.) *)
Theorem aborted_session_reports_interruption :
  forall (f : File) (state live : State) (w : World) (e : Err) (s1 : Store),
    isProcessing state = false ->
    truthy (error state) = false ->
    try_block JSON_parse w (begun empty_store) = (Throw e, s1) ->
    err_name e = lit "AbortError" ->
    let s := run JSON_parse (Some f) state w empty_store in
    dispatched s = dispatched s1 ++ [ERROR interrupted_message]
    /\ filter is_terminal (dispatched s) = [ERROR interrupted_message]
    /\ In log_aborted (console s)
    /\ isProcessing (reduce live (dispatched s)) = false
    /\ error (reduce live (dispatched s)) = Some interrupted_message.
Proof.
  intros f state live w e s1 Hp He Ht Hn s. subst s.
  rewrite (run_started f state w empty_store Hp), Ht.
  destruct (try_block_nonterminal w (begun empty_store)) as (l & El & Fl).
  rewrite Ht in El. cbn [snd begun dispatched app] in El.
  pose proof (try_block_throw_not_successful w e s1 Ht) as Hs.
  unfold catch_block. rewrite Hn, jsstring_eqb_refl. unfold console_log, modify.
  cbn [snd]. rewrite finally_block_spec. unfold closing.
  unfold with_console. cbn [snd dispatched console isStreamSuccessful].
  rewrite Hs, He. repeat split.
  - rewrite El, filter_app, filter_app. cbn [filter is_terminal].
    now rewrite (filter_nonterminal l Fl).
  - apply in_or_app. right. now left.
  - now rewrite reduce_app.
  - now rewrite reduce_app.
Qed.

(** ** Exclusivity *)

(** C9. While the published state is processing, a request to start a
    session is a no-op: the button, disabled, delivers no click; a file
    selection leaves the component as it is; and the handler itself, when
    the state it closed over is this one, returns at once, dispatching
    nothing and touching nothing. *)
Theorem start_is_rejected_while_processing :
  forall (c : FileUpload.t) (w : World) (selected file : option File) (s : Store),
    isProcessing (FileUpload.state c) = true ->
    click JSON_parse c w = (c, [])
    /\ handleFileChange c selected = c
    /\ handleUploadAndAnalyze JSON_parse file (FileUpload.state c) w s = (Return, s).
Proof.
  intros c w selected file s H. repeat split.
  - unfold click, button_disabled. rewrite H. now destruct (FileUpload.file c).
  - unfold handleFileChange. now rewrite H.
  - unfold handleUploadAndAnalyze. rewrite H. now destruct file.
Qed.

End EngineProps.

(** ** The sessions of the examples *)

(** C1 on the code: a parsed payload with tag ERROR and message boom does not
    end the session.  The frame after it is applied; when the stream then
    closes the error published is the interruption message, and when the
    sentinel follows the session is completed with no error at all. *)
Theorem backend_error_does_not_abort :
  (let '(c, acts) := click FlatJSON.parse ready boom_then_close in
   acts = prelude ++ [APPEND_TRANSCRIPT (lit "late"); ERROR interrupted_message]
   /\ transcript (FileUpload.state c) = lit "late"
   /\ error (FileUpload.state c) = Some interrupted_message)
  /\ (let '(c, acts) := click FlatJSON.parse ready boom_then_done in
      acts = prelude ++ [APPEND_TRANSCRIPT (lit "late"); COMPLETE (Some complete_status)]
      /\ transcript (FileUpload.state c) = lit "late"
      /\ error (FileUpload.state c) = None).
Proof. vm_compute. repeat split. Qed.

(** C2 on the code: when the [catch] has dispatched ERROR, the cleanup,
    reading the error of the state the callback closed over, dispatches the
    interruption ERROR as well.  So it is for a read that fails with a network
    error, and for an upload answered with status 500. *)
Theorem second_terminal_after_failure :
  (let '(c, acts) := click FlatJSON.parse ready read_fails in
   acts = prelude ++ [APPEND_TRANSCRIPT (lit "hello");
                      ERROR (lit "network error");
                      ERROR interrupted_message]
   /\ length (filter is_terminal acts) = 2
   /\ error (FileUpload.state c) = Some interrupted_message)
  /\ (let '(c, acts) := click FlatJSON.parse ready upload_fails in
      acts = [START; UPDATE_STATUS (Some uploading_status);
              ERROR (lit "Upload failed with status 500");
              ERROR interrupted_message]
      /\ length (filter is_terminal acts) = 2
      /\ error (FileUpload.state c) = Some interrupted_message).
Proof. vm_compute. repeat split. Qed.

(** ** Instances *)

Lemma decoder_is_chunking_invariant_witness :
  (let r := read_loop FlatJSON.parse (chunks two_records_cut Done) empty_store in
   fst r = Normal tt
   /\ frames (snd r) = frames empty_store ++ map trim two_records
   /\ length (frames (snd r)) = length (frames empty_store) + length two_records
   /\ buffer (snd r) = []
   /\ reads (snd r) = length two_records_cut + reads empty_store)
  /\ (forall err,
        let r := read_loop FlatJSON.parse (chunks two_records_cut (ReadRejected err))
                           empty_store in
        fst r = Throw err
        /\ frames (snd r) = frames empty_store ++ map trim two_records
        /\ buffer (snd r) = []
        /\ reads (snd r) = length two_records_cut + reads empty_store)
  /\ (forall e,
        read_loop FlatJSON.parse (chunks two_records_cut e) empty_store =
        read_loop FlatJSON.parse e
          (absorb FlatJSON.parse (map trim two_records) [] false
                  (pulled (length two_records_cut) empty_store)))
  /\ (forall f state w,
        isProcessing state = false ->
        opened w = Some (chunks two_records_cut Done) ->
        frames (run FlatJSON.parse (Some f) state w empty_store) = map trim two_records
        /\ reads (run FlatJSON.parse (Some f) state w empty_store)
           = length two_records_cut).
Proof.
  apply (decoder_is_chunking_invariant FlatJSON.parse two_records_cut two_records
           empty_store);
    [reflexivity | repeat constructor | reflexivity].
Defined.

Lemma done_ends_the_session_witness :
  let s := run FlatJSON.parse (Some meeting) initialState
               (streaming (chunks done_cut Done)) empty_store in
  frames s = map trim [hello_record] ++ [trim done_record]
  /\ dispatched s =
     prelude ++ flat_map (frame_actions FlatJSON.parse) (map trim [hello_record])
             ++ [COMPLETE (Some complete_status)]
  /\ isStreamSuccessful s = true
  /\ 0 < reads s <= length done_cut
  /\ buffer s ++ concat (skipn (reads s) done_cut) = after_done
  /\ snd (decode (concat (firstn (reads s - 1) done_cut))) = false.
Proof.
  apply (done_ends_the_session FlatJSON.parse meeting initialState
           (streaming (chunks done_cut Done)) done_cut [hello_record] Done
           done_record after_done);
    [reflexivity | reflexivity | repeat constructor | reflexivity | reflexivity
    | reflexivity].
Defined.

Lemma malformed_frame_is_skipped_witness :
  (let r := read_loop FlatJSON.parse (chunks sandwich_cut Done) empty_store in
   fst r = Normal tt
   /\ dispatched (snd r) =
      dispatched empty_store
      ++ flat_map (record_actions FlatJSON.parse) [hello_record]
      ++ flat_map (record_actions FlatJSON.parse) [late_record]
   /\ Forall (fun a => is_terminal a = false)
             (flat_map (record_actions FlatJSON.parse) [hello_record]
              ++ flat_map (record_actions FlatJSON.parse) [late_record])
   /\ frames (snd r)
      = frames empty_store ++ map trim ([hello_record] ++ bad_record :: [late_record])
   /\ In (error_parse (body_of (trim bad_record)) parse_error) (console (snd r))
   /\ isStreamSuccessful (snd r) = isStreamSuccessful empty_store
   /\ reads (snd r) = length sandwich_cut + reads empty_store)
  /\ frame_actions FlatJSON.parse (trim bad_record) = []
  /\ (forall e,
        read_loop FlatJSON.parse (chunks sandwich_cut e) empty_store =
        read_loop FlatJSON.parse e
          (absorb FlatJSON.parse (map trim ([hello_record] ++ bad_record :: [late_record]))
                  [] false (pulled (length sandwich_cut) empty_store))).
Proof.
  apply (malformed_frame_is_skipped FlatJSON.parse sandwich_cut [hello_record]
           [late_record] bad_record empty_store);
    [reflexivity | repeat constructor | reflexivity | repeat constructor | reflexivity].
Defined.

Lemma empty_fragment_is_not_appended_witness :
  exists acts,
    dispatched (snd (handle_message FlatJSON.parse empty_record empty_store)) =
    dispatched empty_store ++ acts
    /\ (Some (lit "") = Some [] -> forall t, ~ In (APPEND_TRANSCRIPT t) acts)
    /\ (Some (lit "recap") = Some [] -> forall t, ~ In (APPEND_SUMMARY t) acts)
    /\ (forall t, In (APPEND_TRANSCRIPT t) acts -> Some (lit "") = Some t /\ t <> [])
    /\ (forall t, In (APPEND_SUMMARY t) acts -> Some (lit "recap") = Some t /\ t <> []).
Proof.
  apply (empty_fragment_is_not_appended FlatJSON.parse empty_record
           (Payload.mk None None (Some (lit "")) (Some (lit "recap"))) empty_store);
    reflexivity.
Defined.

Lemma aborted_session_reports_interruption_witness :
  let s := run FlatJSON.parse (Some meeting) (FileUpload.state ready)
               aborted_while_reading empty_store in
  dispatched s =
  dispatched (snd (try_block FlatJSON.parse aborted_while_reading (begun empty_store)))
  ++ [ERROR interrupted_message]
  /\ filter is_terminal (dispatched s) = [ERROR interrupted_message]
  /\ In log_aborted (console s)
  /\ isProcessing (reduce (FileUpload.state ready) (dispatched s)) = false
  /\ error (reduce (FileUpload.state ready) (dispatched s)) = Some interrupted_message.
Proof.
  apply (aborted_session_reports_interruption FlatJSON.parse meeting
           (FileUpload.state ready) (FileUpload.state ready) aborted_while_reading
           abort_error
           (snd (try_block FlatJSON.parse aborted_while_reading (begun empty_store))));
    reflexivity.
Defined.

Lemma start_is_rejected_while_processing_witness :
  isProcessing (FileUpload.state running) = true
  /\ click FlatJSON.parse running boom_then_done = (running, [])
  /\ handleFileChange running (Some meeting) = running
  /\ handleUploadAndAnalyze FlatJSON.parse (Some meeting) (FileUpload.state running)
       boom_then_done empty_store = (Return, empty_store).
Proof.
  split; [reflexivity|].
  apply (start_is_rejected_while_processing FlatJSON.parse running boom_then_done
           (Some meeting) (Some meeting) empty_store).
  reflexivity.
Defined.

(** * Further properties *)

(** ** The reducer over sequences of actions *)

Lemma reduce_cons (s : State) (a : Action) (l : list Action) :
  reduce s (a :: l) = reduce (streamReducer s a) l.
Proof. reflexivity. Qed.

Lemma reduce_progress (l : list Action) :
  forall s, Forall (fun a => is_progress a = true) l ->
            isProcessing (reduce s l) = isProcessing s /\ error (reduce s l) = error s.
Proof.
  induction l as [|a l IH]; intros s H; [now split|].
  inversion H as [|? ? Ha Hl]; subst. rewrite reduce_cons.
  destruct (IH (streamReducer s a) Hl) as [-> ->].
  destruct a; try discriminate; now split.
Qed.

Lemma reduce_terminal (l : list Action) :
  forall s, Forall (fun a => is_terminal a = true) l -> l <> [] ->
            isProcessing (reduce s l) = false.
Proof.
  induction l as [|a l IH]; intros s H N; [contradiction|].
  inversion H as [|? ? Ha Hl]; subst. rewrite reduce_cons.
  destruct l as [|b l].
  - destruct a; try discriminate; reflexivity.
  - apply IH; [exact Hl | discriminate].
Qed.

(** X1. Unless a START is among them, actions only ever extend the
    transcript and the summary: what was there stays at the front. *)
Theorem transcript_is_append_only :
  forall (l : list Action) (s : State),
    Forall (fun a => is_START a = false) l ->
    exists t u,
      transcript (reduce s l) = transcript s ++ t
      /\ summary (reduce s l) = summary s ++ u.
Proof.
  induction l as [|a l IH]; intros s H.
  - exists [], []. cbn. now rewrite !app_nil_r.
  - inversion H as [|? ? Ha Hl]; subst. rewrite reduce_cons.
    destruct (IH (streamReducer s a) Hl) as (t & u & -> & ->).
    destruct a; try discriminate; cbn [streamReducer transcript summary].
    + now exists t, u.
    + eexists; exists u. split; [now rewrite <- app_assoc | reflexivity].
    + exists t; eexists. split; [reflexivity | now rewrite <- app_assoc].
    + now exists t, u.
    + now exists t, u.
Qed.

Lemma join_spaces_cons (a t : jsstring) (ts : list jsstring) :
  join_spaces ((a ++ lit " " ++ t) :: ts) = a ++ lit " " ++ join_spaces (t :: ts).
Proof.
  destruct ts as [|f ts]; [reflexivity|].
  cbn [join_spaces]. now rewrite <- !app_assoc.
Qed.

Lemma transcript_joins (l : list Action) :
  forall s,
    Forall (fun a => is_START a = false) l ->
    Forall (fun t => t <> []) (transcript_fragments l) ->
    transcript (reduce s l) =
    match transcript s with
    | [] => join_spaces (transcript_fragments l)
    | _ :: _ => join_spaces (transcript s :: transcript_fragments l)
    end.
Proof.
  induction l as [|a l IH]; intros s HS HF.
  - cbn. now destruct (transcript s).
  - inversion HS as [|? ? Ha Hl]; subst. rewrite reduce_cons.
    destruct a; try discriminate; cbn [transcript_fragments] in *;
      try (rewrite (IH _ Hl HF); reflexivity).
    inversion HF as [|? ? Hp HF']; subst.
    rewrite (IH _ Hl HF'). cbn [streamReducer transcript].
    destruct (transcript s) as [|c tr] eqn:E.
    + cbn [length Nat.ltb Nat.leb app]. destruct payload; [contradiction|reflexivity].
    + cbn [length]. change (0 <? S (length tr)) with true. cbv iota.
      destruct ((c :: tr) ++ lit " " ++ payload) eqn:E'; [discriminate|].
      rewrite <- E'. apply join_spaces_cons.
Qed.

(** X2. From an empty transcript, and with no START among the actions, the
    transcript is the non-empty fragments appended, in order, joined by
    single spaces, whatever other actions come between them. *)
Theorem fragments_are_joined_by_single_spaces :
  forall (l : list Action) (s : State),
    transcript s = [] ->
    Forall (fun a => is_START a = false) l ->
    Forall (fun t => t <> []) (transcript_fragments l) ->
    transcript (reduce s l) = join_spaces (transcript_fragments l).
Proof.
  intros l s E HS HF. rewrite (transcript_joins l s HS HF). now rewrite E.
Qed.

(** ** The handler over every world *)

Section Sessions.
Variable JSON_parse : jsstring -> option Payload.t.

Lemma payload_actions_progress (data : Payload.t) :
  Forall (fun a => is_progress a = true) (payload_actions data).
Proof.
  unfold payload_actions.
  destruct (is_string (Payload.tag data) (lit "STATUS"));
    destruct (is_string (Payload.tag data) (lit "ERROR"));
    destruct (Payload.transcript data) as [[|? ?]|];
    destruct (Payload.summary data) as [[|? ?]|]; cbn; repeat constructor.
Qed.

Lemma frames_actions_progress (fs : list jsstring) :
  Forall (fun a => is_progress a = true) (flat_map (frame_actions JSON_parse) fs).
Proof.
  induction fs as [|m fs IH]; [constructor|].
  cbn [flat_map]. apply Forall_app. split; [|exact IH].
  destruct (startsWith (lit "data:") m) eqn:Hm.
  - destruct (JSON_parse (body_of m)) as [data|] eqn:Hp.
    + rewrite (frame_actions_data JSON_parse m data Hm Hp).
      destruct (jsstring_eqb _ _); [constructor | apply payload_actions_progress].
    + rewrite (frame_actions_malformed JSON_parse m Hp). constructor.
  - rewrite (frame_actions_other JSON_parse m Hm). constructor.
Qed.

(** What the read loop may change: it dispatches progress actions only,
    leaves the reader and the controller alone, and raises the success flag
    exactly when it returns. *)
Lemma read_loop_inv (r : Stream) :
  forall s c s1,
    read_loop JSON_parse r s = (c, s1) ->
    (exists l, dispatched s1 = dispatched s ++ l
               /\ Forall (fun a => is_progress a = true) l)
    /\ controller s1 = controller s
    /\ reader s1 = reader s
    /\ (c = Return -> isStreamSuccessful s1 = true)
    /\ (c <> Return -> isStreamSuccessful s1 = isStreamSuccessful s).
Proof.
  induction r as [v rest IH| |e]; intros s c s1.
  - rewrite read_loop_Chunk. destruct (decode (buffer s ++ v)) as [[fs r] d].
    destruct d.
    + intro H. injection H as <- <-. repeat split; try reflexivity.
      * exists (flat_map (frame_actions JSON_parse) fs). split; [reflexivity|].
        apply frames_actions_progress.
      * intro N. now contradiction N.
    + intro H. apply IH in H as ((l & E & F) & Hc & Hr & Hs1 & Hs2).
      repeat split; try assumption.
      exists (flat_map (frame_actions JSON_parse) fs ++ l). split.
      * rewrite E. cbn [absorb dispatched]. now rewrite app_assoc.
      * apply Forall_app. split; [apply frames_actions_progress | exact F].
  - cbn. intro H. injection H as <- <-. repeat split; try reflexivity; try discriminate.
    exists []. split; [cbn; now rewrite app_nil_r | constructor].
  - cbn. intro H. injection H as <- <-. repeat split; try reflexivity; try discriminate.
    exists []. split; [cbn; now rewrite app_nil_r | constructor].
Qed.

(** The same for the whole [try], which also creates the reader when, and
    only when, the stream is opened; when it is not, the [try] is left by a
    [throw] before anything is read. *)
Lemma try_block_inv (w : World) (s : Store) :
  forall c s1,
    try_block JSON_parse w s = (c, s1) ->
    (exists l, dispatched s1 = dispatched s ++ l
               /\ Forall (fun a => is_progress a = true) l)
    /\ controller s1 = controller s
    /\ reader s1 = match opened w with Some _ => Some false | None => reader s end
    /\ (c = Return -> isStreamSuccessful s1 = true)
    /\ (c <> Return -> isStreamSuccessful s1 = isStreamSuccessful s)
    /\ (opened w = None ->
        (exists e, c = Throw e) /\ reads s1 = reads s /\ frames s1 = frames s).
Proof.
  intros c s1. destruct (opened w) as [body|] eqn:Ho.
  - rewrite (try_block_opened JSON_parse w body s Ho). intro H.
    apply read_loop_inv in H as ((l & E & F) & Hc & Hr & Hs1 & Hs2).
    repeat split; try assumption; try discriminate.
    exists ([UPDATE_STATUS (Some uploading_status);
             UPDATE_STATUS (Some uploaded_status)] ++ l).
    split; [rewrite E; cbn [reading dispatched]; now rewrite <- app_assoc|].
    apply Forall_app. split; [repeat constructor | exact F].
  - unfold opened in Ho. unfold try_block.
    destruct w as [[u bu|eu] st]; cbn [upload stream] in *; unfold await_fetch, when.
    2:{ unfold bind, dispatch, modify, throw. intro H. injection H as <- <-.
        repeat split; try reflexivity; try discriminate; [|now exists eu].
        exists [UPDATE_STATUS (Some uploading_status)]. split; [reflexivity|].
        repeat constructor. }
    unfold bind at 1 2 3. unfold dispatch, modify, ret. cbn [fst snd].
    destruct (ok u) eqn:Eu; cbn [negb].
    2:{ unfold throw. intro H. injection H as <- <-.
        repeat split; try reflexivity; try discriminate; [|eexists; reflexivity].
        exists [UPDATE_STATUS (Some uploading_status)]. split; [reflexivity|].
        repeat constructor. }
    unfold bind at 1 2. cbn [fst snd].
    assert (P : forall e0,
      (exists l, dispatched
         (with_dispatched (fun l => l ++ [UPDATE_STATUS (Some uploaded_status)])
            (with_dispatched (fun l => l ++ [UPDATE_STATUS (Some uploading_status)]) s))
         = dispatched s ++ l /\ Forall (fun a => is_progress a = true) l)
      /\ (exists e, @Throw unit e0 = Throw e)).
    { intro e0. split; [|now exists e0].
      exists [UPDATE_STATUS (Some uploading_status);
              UPDATE_STATUS (Some uploaded_status)].
      split; [destruct s; cbn; now rewrite <- app_assoc | repeat constructor]. }
    destruct st as [v [b|]|ev]; cbn [fst snd].
    + destruct (ok v); [discriminate|].
      unfold throw. intro H. injection H as <- <-.
      destruct (P (Error_ (lit "Stream request failed with status " ++ decimal v)))
        as [Pl Pe].
      repeat split; try reflexivity; try discriminate; assumption.
    + unfold throw. intro H. injection H as <- <-.
      destruct (P (Error_ (lit "Stream request failed with status " ++ decimal v)))
        as [Pl Pe].
      repeat split; try reflexivity; try discriminate; assumption.
    + unfold throw. intro H. injection H as <- <-.
      destruct (P ev) as [Pl Pe].
      repeat split; try reflexivity; try discriminate; assumption.
Qed.

(** The store a started session leaves, from the completion of its [try]
    and the store at that point. *)
Lemma run_trace (f : File) (state : State) (w : World) (s : Store)
      (c : Completion unit) (s1 : Store) :
  isProcessing state = false ->
  try_block JSON_parse w (begun s) = (c, s1) ->
  let s2 := run JSON_parse (Some f) state w s in
  dispatched s2 = dispatched s1 ++ caught c ++ closing state s1
  /\ isStreamSuccessful s2 = isStreamSuccessful s1
  /\ reader s2 = option_map (fun _ => true) (reader s1)
  /\ controller s2 = option_map (fun _ => true) (controller s1)
  /\ buffer s2 = buffer s1 /\ frames s2 = frames s1 /\ reads s2 = reads s1.
Proof.
  intros Hp Ht s2. subst s2. rewrite (run_started JSON_parse f state w s Hp), Ht.
  destruct c as [[]|e|]; cbn [caught app].
  - rewrite finally_block_spec. cbn. repeat split.
  - unfold catch_block, is_abort, reported_message.
    destruct (jsstring_eqb (err_name e) (lit "AbortError")).
    + unfold console_log, modify. cbn [snd]. rewrite finally_block_spec.
      unfold closing, with_console. cbn. repeat split.
    + unfold bind, console_log, dispatch, modify. cbn [snd].
      rewrite finally_block_spec. unfold closing, with_console, with_dispatched.
      cbn. rewrite <- app_assoc. repeat split.
  - rewrite finally_block_spec. cbn. repeat split.
Qed.






(** The terminal actions a started session ends with. *)
Lemma session_tail (state : State) (c : Completion unit) (s1 : Store) :
  (c = Return -> isStreamSuccessful s1 = true) ->
  (c <> Return -> isStreamSuccessful s1 = false) ->
  let t := caught c ++ closing state s1 in
  Forall (fun a => is_terminal a = true) t
  /\ length t <= 2
  /\ (forall p, In (COMPLETE p) t -> t = [COMPLETE (Some complete_status)]).
Proof.
  intros HR HN t. subst t. unfold caught, closing.
  destruct c as [[]|e|].
  - rewrite HN by discriminate. destruct (truthy (error state)); cbn;
      repeat split; try lia; repeat constructor;
      intros p H; repeat (destruct H as [H|H]; try discriminate); contradiction.
  - rewrite HN by discriminate.
    destruct (is_abort e); destruct (truthy (error state)); cbn;
      repeat split; try lia; repeat constructor;
      intros p H; repeat (destruct H as [H|H]; try discriminate); contradiction.
  - rewrite HR by reflexivity. cbn. repeat split; try lia; repeat constructor.
Qed.

(** X3. The trace of every started session: START, then progress actions
    only, then at most two terminal actions and nothing after them; a
    COMPLETE, when there is one, is the only terminal action; and the state
    published is still processing exactly when no terminal action was
    dispatched. *)
Theorem session_trace_shape :
  forall (f : File) (state : State) (w : World),
    isProcessing state = false ->
    exists l t,
      dispatched (run JSON_parse (Some f) state w empty_store) = START :: l ++ t
      /\ Forall (fun a => is_progress a = true) l
      /\ Forall (fun a => is_terminal a = true) t
      /\ length t <= 2
      /\ (forall p, In (COMPLETE p) t -> t = [COMPLETE (Some complete_status)])
      /\ (forall live,
            isProcessing (reduce live (START :: l ++ t)) =
            match t with [] => true | _ :: _ => false end).
Proof.
  intros f state w Hp.
  destruct (try_block JSON_parse w (begun empty_store)) as [c s1] eqn:Ht.
  destruct (run_trace f state w empty_store c s1 Hp Ht) as (Hd & _).
  destruct (try_block_inv w (begun empty_store) c s1 Ht)
    as ((l & El & Fl) & _ & _ & HR & HN & _).
  change (dispatched (begun empty_store)) with [START] in El.
  cbn [begun isStreamSuccessful app] in El, HN.
  destruct (session_tail state c s1 HR HN) as (Ft & Lt & Ct).
  exists l, (caught c ++ closing state s1).
  rewrite Hd, El. repeat split; try assumption.
  intro live. rewrite reduce_cons, reduce_app.
  destruct (caught c ++ closing state s1) as [|a t] eqn:E.
  - cbn [reduce fold_left]. now destruct (reduce_progress l (streamReducer live START) Fl) as [-> _].
  - apply reduce_terminal; [exact Ft | discriminate].
Qed.


(** X5. The cleanup releases the transport in every started session: the
    abort controller ends aborted, and the reader, which exists exactly when
    the stream was opened, ends cancelled. *)
Theorem cleanup_releases_the_transport :
  forall (f : File) (state : State) (w : World) (s : Store),
    isProcessing state = false ->
    let s' := run JSON_parse (Some f) state w s in
    controller s' = Some true
    /\ reader s' = match opened w with Some _ => Some true | None => None end.
Proof.
  intros f state w s Hp s'. subst s'.
  destruct (try_block JSON_parse w (begun s)) as [c s1] eqn:Ht.
  destruct (run_trace f state w s c s1 Hp Ht) as (_ & _ & Hr & Hc & _).
  destruct (try_block_inv w (begun s) c s1 Ht) as (_ & Ec & Er & _).
  rewrite Hr, Hc, Ec, Er. cbn [begun controller reader option_map].
  now destruct (opened w).
Qed.

(** ** Requests that fail *)


Lemma try_block_stream_refused (w : World) (u v : N) (bu body : option Stream)
      (s : Store) :
  upload w = Response u bu -> ok u = true ->
  stream w = Response v body ->
  ok v = false \/ body = None ->
  try_block JSON_parse w s =
  (Throw (Error_ (lit "Stream request failed with status " ++ decimal v)),
   with_dispatched (fun l => l ++ [UPDATE_STATUS (Some uploaded_status)])
     (with_dispatched (fun l => l ++ [UPDATE_STATUS (Some uploading_status)]) s)).
Proof.
  intros Hu Ho Hs Hv. unfold try_block. rewrite Hu, Hs. unfold await_fetch, when.
  unfold bind at 1 2 3. unfold dispatch, modify, ret. cbn [fst snd].
  rewrite Ho. cbn [negb]. unfold bind at 1 2. cbn [fst snd].
  destruct body as [b|]; [|reflexivity].
  destruct Hv as [Hv|Hv]; [now rewrite Hv | discriminate].
Qed.


(** X8. A stream request answered with a status outside 200-299, or with
    no body, after a successful upload: nothing is read, even when there is a
    body; the session dispatches ERROR with the text Stream request failed
    with status and the status in decimal, and after it the interruption
    ERROR unless the state the callback closed over had an error. *)
Theorem refused_stream_ends_the_session :
  forall (f : File) (state : State) (w : World) (u v : N) (bu body : option Stream),
    isProcessing state = false ->
    upload w = Response u bu ->
    ok u = true ->
    stream w = Response v body ->
    ok v = false \/ body = None ->
    let s := run JSON_parse (Some f) state w empty_store in
    dispatched s =
      prelude ++ [ERROR (lit "Stream request failed with status " ++ decimal v)]
      ++ (if truthy (error state) then [] else [ERROR interrupted_message])
    /\ reads s = 0 /\ frames s = [] /\ reader s = None.
Proof.
  intros f state w u v bu body Hp Hu Ho Hs Hv s. subst s.
  pose proof (try_block_stream_refused w u v bu body (begun empty_store) Hu Ho Hs Hv)
    as Ht.
  destruct (run_trace f state w empty_store _ _ Hp Ht) as (Hd & _ & Hr & _ & _ & Hf & Hn).
  rewrite Hd, Hr, Hf, Hn. unfold closing. cbn.
  destruct (truthy (error state)); repeat split.
Qed.

(** X9. Any error other than an abort that leaves the [try] (a rejected
    fetch, a failed read): the [catch] dispatches ERROR with the error's
    message, or with the fixed text when that message is empty, so never with
    an empty one; the error finally published is that message when the state
    the callback closed over had an error, and the interruption message
    otherwise. *)
Theorem thrown_error_is_reported :
  forall (f : File) (state live : State) (w : World) (e : Err) (s1 : Store),
    isProcessing state = false ->
    try_block JSON_parse w (begun empty_store) = (Throw e, s1) ->
    is_abort e = false ->
    let s := run JSON_parse (Some f) state w empty_store in
    dispatched s =
      dispatched s1 ++ [ERROR (reported_message e)]
      ++ (if truthy (error state) then [] else [ERROR interrupted_message])
    /\ reported_message e <> []
    /\ (err_message e <> [] -> reported_message e = err_message e)
    /\ error (reduce live (dispatched s)) =
       Some (if truthy (error state) then reported_message e else interrupted_message)
    /\ isProcessing (reduce live (dispatched s)) = false.
Proof.
  intros f state live w e s1 Hp Ht Ha s. subst s.
  destruct (run_trace f state w empty_store _ _ Hp Ht) as (Hd & _).
  destruct (try_block_inv w (begun empty_store) _ _ Ht) as (_ & _ & _ & _ & HN & _).
  rewrite Hd. unfold caught, closing. rewrite Ha, HN by discriminate.
  cbn [begun isStreamSuccessful].
  split; [reflexivity|]. split; [|split].
  - unfold reported_message. now destruct (err_message e).
  - unfold reported_message. now destruct (err_message e).
  - rewrite !reduce_app. destruct (truthy (error state)); now split.
Qed.

(** ** Streams that close without the sentinel *)

Lemma decode_records_tail (rs : list jsstring) (tail : jsstring) :
  Forall (fun r => plain_record r = true) rs ->
  indexOf blank_line tail = None ->
  decode (records_text rs ++ tail) = (map trim rs, tail, false).
Proof.
  intros Hrs Ht. rewrite (decode_records rs tail Hrs), (decode_none tail Ht).
  now rewrite app_nil_r.
Qed.

(** The [try] over a stream that closes after some plain records and a
    last piece of text without a blank line. *)
Lemma try_block_closed (w : World) (cs rs : list jsstring) (tail : jsstring)
      (s : Store) :
  opened w = Some (chunks cs Done) ->
  Forall (fun r => plain_record r = true) rs ->
  indexOf blank_line tail = None ->
  concat cs = records_text rs ++ tail ->
  try_block JSON_parse w s =
  (Normal tt,
   with_console (fun l => l ++ [log_reader_finished])
     (absorb JSON_parse (map trim rs) tail false (pulled (length cs) (reading s)))).
Proof.
  intros Hw Hrs Ht Hcs. rewrite (try_block_opened JSON_parse w _ s Hw).
  pose proof (read_loop_chunks JSON_parse cs Done (reading s) eq_refl) as L.
  cbn [reading buffer app] in L.
  rewrite Hcs, (decode_records_tail rs tail Hrs Ht) in L.
  rewrite L. reflexivity.
Qed.

(** X10. A stream that closes without the sentinel: every chunk is pulled,
    the complete records are taken as frames, and the text after the last
    blank line, even a whole data line, stays in the buffer and is never
    interpreted; the session then ends with the interruption ERROR, unless
    the state the callback closed over had an error, in which case it
    dispatches no terminal action. *)
Theorem closed_stream_drops_the_unfinished_record :
  forall (f : File) (state : State) (w : World) (cs rs : list jsstring)
         (tail : jsstring),
    isProcessing state = false ->
    opened w = Some (chunks cs Done) ->
    Forall (fun r => plain_record r = true) rs ->
    indexOf blank_line tail = None ->
    concat cs = records_text rs ++ tail ->
    let s := run JSON_parse (Some f) state w empty_store in
    frames s = map trim rs
    /\ buffer s = tail
    /\ reads s = length cs
    /\ dispatched s =
       prelude ++ flat_map (frame_actions JSON_parse) (map trim rs)
       ++ (if truthy (error state) then [] else [ERROR interrupted_message])
    /\ In log_reader_finished (console s).
Proof.
  intros f state w cs rs tail Hp Hw Hrs Ht Hcs s. subst s.
  pose proof (try_block_closed w cs rs tail (begun empty_store) Hw Hrs Ht Hcs) as T.
  destruct (run_trace f state w empty_store _ _ Hp T)
    as (Hd & _ & _ & _ & Hb & Hf & Hn).
  rewrite Hd, Hb, Hf, Hn. unfold closing. cbn.
  rewrite Nat.add_0_r. repeat split.
  rewrite (run_started JSON_parse f state w empty_store Hp), T, finally_block_spec.
  cbn. apply in_or_app. right. now left.
Qed.

Lemma render_state (c : FileUpload.t) : FileUpload.state (render c) = FileUpload.state c.
Proof. unfold render. now destruct (_ && _). Qed.

Lemma render_file (c : FileUpload.t) : FileUpload.file (render c) = FileUpload.file c.
Proof. unfold render. now destruct (_ && _). Qed.

Lemma fold_dispatch_render (acts : list Action) :
  forall c,
    FileUpload.state (fold_left dispatch_render acts c) = reduce (FileUpload.state c) acts
    /\ FileUpload.file (fold_left dispatch_render acts c) = FileUpload.file c.
Proof.
  induction acts as [|a acts IH]; intro c; [now split|].
  cbn [fold_left]. destruct (IH (dispatch_render c a)) as [-> ->].
  unfold dispatch_render. rewrite render_state, render_file. now split.
Qed.

(** X11. When the callback has closed over a state with an error (a
    session failed before), a session whose stream closes without the
    sentinel dispatches no terminal action: the published state stays
    processing, so the button stays disabled and file selections are
    ignored from then on. *)
Theorem stale_error_leaves_the_session_open :
  forall (c : FileUpload.t) (f : File) (w : World) (cs rs : list jsstring)
         (tail : jsstring),
    button_disabled c = false ->
    FileUpload.memo_file c = Some f ->
    isProcessing (FileUpload.memo_state c) = false ->
    truthy (error (FileUpload.memo_state c)) = true ->
    opened w = Some (chunks cs Done) ->
    Forall (fun r => plain_record r = true) rs ->
    indexOf blank_line tail = None ->
    concat cs = records_text rs ++ tail ->
    filter is_terminal (snd (click JSON_parse c w)) = []
    /\ isProcessing (FileUpload.state (fst (click JSON_parse c w))) = true
    /\ button_disabled (fst (click JSON_parse c w)) = true
    /\ forall selected,
         handleFileChange (fst (click JSON_parse c w)) selected
         = fst (click JSON_parse c w).
Proof.
  intros c f w cs rs tail Hb Hf Hp He Hw Hrs Ht Hcs.
  unfold click. rewrite Hb, Hf. cbn [fst snd].
  set (s0 := with_controller (FileUpload.abortControllerRef c) empty_store).
  pose proof (try_block_closed w cs rs tail (begun s0) Hw Hrs Ht Hcs) as T.
  destruct (run_trace f (FileUpload.memo_state c) w s0 _ _ Hp T) as (Hd & _).
  set (acts := prelude ++ flat_map (frame_actions JSON_parse) (map trim rs)).
  assert (Ha : dispatched (run JSON_parse (Some f) (FileUpload.memo_state c) w s0) = acts).
  { rewrite Hd. unfold closing. cbn. rewrite He. now rewrite app_nil_r. }
  rewrite Ha.
  assert (P : isProcessing (reduce (FileUpload.state c) acts) = true).
  { subst acts. unfold prelude. cbn [app]. rewrite reduce_cons.
    match goal with |- isProcessing (reduce ?s0 ?l) = true =>
      destruct (reduce_progress l s0) as [-> _]; [|reflexivity] end.
    repeat constructor. apply frames_actions_progress. }
  destruct (fold_dispatch_render acts c) as [Es Ef].
  split; [|split; [|split]].
  - subst acts. rewrite filter_app. unfold prelude. cbn [filter is_terminal app].
    apply filter_nonterminal, frames_actions_nonterminal.
  - cbn [FileUpload.state]. now rewrite Es.
  - unfold button_disabled. cbn [FileUpload.file FileUpload.state].
    rewrite Es, P. now destruct (FileUpload.file _).
  - intro selected. unfold handleFileChange. cbn [FileUpload.state].
    now rewrite Es, P.
Qed.

(** ** Records that are not data *)

Lemma other_frame_spec (r : jsstring) :
  has_data_prefix r = false ->
  frame_actions JSON_parse (trim r) = [] /\ frame_logs JSON_parse (trim r) = [].
Proof.
  unfold has_data_prefix, frame_actions, frame_logs, handle_message, when.
  intro H. now rewrite H.
Qed.

Lemma flat_map_data_only (rs : list jsstring) :
  flat_map (frame_actions JSON_parse) (map trim rs) =
  flat_map (frame_actions JSON_parse) (map trim (filter has_data_prefix rs))
  /\ flat_map (frame_logs JSON_parse) (map trim rs) =
     flat_map (frame_logs JSON_parse) (map trim (filter has_data_prefix rs)).
Proof.
  induction rs as [|r rs [IHa IHl]]; [now split|].
  cbn [map flat_map filter]. destruct (has_data_prefix r) eqn:E.
  - cbn [map flat_map]. now rewrite IHa, IHl.
  - destruct (other_frame_spec r E) as [-> ->]. now split.
Qed.

(** X12. Records that do not begin with [data:] (comment lines, keep-alive
    lines, other fields) are taken as frames and otherwise ignored: in
    whatever chunks the text arrives, when the stream then closes the loop
    ends normally with every record among its frames, and the actions it
    has dispatched and the console entries it has made are those of the
    [data:] records alone; when the stream goes on, the loop goes on from
    that store. *)
Theorem other_records_are_ignored :
  forall (cs rs : list jsstring) (s : Store),
    buffer s = [] ->
    Forall (fun r => plain_record r = true) rs ->
    concat cs = records_text rs ->
    (let r := read_loop JSON_parse (chunks cs Done) s in
     fst r = Normal tt
     /\ frames (snd r) = frames s ++ map trim rs
     /\ dispatched (snd r) =
        dispatched s
        ++ flat_map (frame_actions JSON_parse) (map trim (filter has_data_prefix rs))
     /\ console (snd r) =
        console s
        ++ flat_map (frame_logs JSON_parse) (map trim (filter has_data_prefix rs))
        ++ [log_reader_finished]
     /\ buffer (snd r) = []
     /\ reads (snd r) = length cs + reads s)
    /\ (forall e,
          read_loop JSON_parse (chunks cs e) s =
          read_loop JSON_parse e
            (absorb JSON_parse (map trim rs) [] false (pulled (length cs) s))).
Proof.
  intros cs rs s Hb Hrs Hcs.
  assert (Hcs' : concat cs = records_text rs ++ []) by now rewrite app_nil_r.
  assert (L : forall e,
            read_loop JSON_parse (chunks cs e) s =
            read_loop JSON_parse e
              (absorb JSON_parse (map trim rs) [] false (pulled (length cs) s))).
  { intro e. now apply read_loop_plain. }
  split; [|exact L].
  rewrite (L Done), read_loop_Done.
  cbn [fst snd with_console absorb dispatched frames console buffer reads
       pulled with_reads].
  destruct (flat_map_data_only rs) as [<- <-].
  repeat split. now rewrite <- app_assoc.
Qed.

(** ** Nothing is lost between the chunks and the frames *)

Lemma startsWith_blank_single (c : N) : startsWith blank_line [c] = false.
Proof. unfold blank_line. cbn [startsWith]. apply andb_false_r. Qed.

(** The first blank line of a text cuts it into a delimited record, the
    blank line, and the rest. *)
Lemma indexOf_blank_split (s : jsstring) :
  forall i, indexOf blank_line s = Some i ->
            s = firstn i s ++ blank_line ++ skipn (i + 2) s
            /\ delimited (firstn i s) = true.
Proof.
  induction s as [|c s IH]; intro i; [discriminate|].
  rewrite indexOf_unfold. destruct (startsWith blank_line (c :: s)) eqn:E.
  - intro H. injection H as <-. split; [|reflexivity].
    destruct s as [|d s]; [now rewrite startsWith_blank_single in E|].
    rewrite startsWith_blank in E. apply andb_true_iff in E as [Ec Ed].
    apply andb_true_iff in Ed as [Ed _].
    apply N.eqb_eq in Ec, Ed. now subst.
  - destruct (indexOf blank_line s) as [j|] eqn:Ej; [|discriminate].
    intro H. injection H as <-. destruct (IH j eq_refl) as [Hs Hd].
    split.
    + cbn [firstn Nat.add skipn app]. now rewrite <- Hs.
    + unfold delimited in *. cbn [firstn].
      destruct (indexOf blank_line (firstn j s)) as [?|] eqn:Ef; [discriminate|].
      rewrite indexOf_unfold, Ef. cbn [option_map].
      destruct (firstn j s) as [|d fs] eqn:F.
      * destruct j; [|destruct s; discriminate].
        (* the blank line follows at once: [c] is not a newline *)
        destruct s as [|d [|d' s]]; try discriminate.
        rewrite indexOf_unfold in Ej.
        destruct (startsWith blank_line (d :: d' :: s)) eqn:E2.
        2:{ destruct (indexOf blank_line (d' :: s)); discriminate. }
        rewrite startsWith_blank in E2. apply andb_true_iff in E2 as [Ed _].
        rewrite startsWith_blank, Ed in E. cbn [andb] in E.
        rewrite andb_true_r in E.
        rewrite startsWith_blank_single.
        cbn [last]. apply negb_true_iff. now rewrite N.eqb_sym.
      * assert (Hd' : s = d :: skipn 1 s).
        { destruct s as [|x s']; [destruct j; discriminate|].
          destruct j; [discriminate|]. cbn in F. injection F as -> _. reflexivity. }
        rewrite Hd', startsWith_blank in E. rewrite startsWith_blank, E.
        exact Hd.
Qed.

Lemma decode_partition (text : jsstring) :
  forall fs r d,
    decode text = (fs, r, d) ->
    exists raws,
      Forall (fun x => delimited x = true) raws
      /\ map trim raws = fs
      /\ text = records_text raws ++ r
      /\ (d = false -> indexOf blank_line r = None)
      /\ (d = true -> exists pre dr, raws = pre ++ [dr] /\ is_done_frame (trim dr) = true).
Proof.
  induction text as [text Hn | text i Hi IH] using frames_ind; intros fs r d.
  - rewrite (decode_none _ Hn). intro H. injection H as <- <- <-.
    exists []. split; [constructor|]. split; [reflexivity|]. split; [reflexivity|].
    split; [intros _; exact Hn | discriminate].
  - rewrite (decode_step _ _ Hi). cbv zeta.
    destruct (indexOf_blank_split text i Hi) as [Hs Hd].
    unfold substring_to, substring_from in *.
    destruct (is_done_frame (trim (firstn i text))) eqn:Ed.
    + intro H. injection H as <- <- <-.
      exists [firstn i text].
      split; [now repeat constructor|]. split; [reflexivity|]. split; [|split].
      * unfold records_text. cbn [map concat]. rewrite app_nil_r, <- app_assoc.
        exact Hs.
      * discriminate.
      * intros _. exists [], (firstn i text). now split.
    + destruct (decode (skipn (i + 2) text)) as [[fs' r'] d'] eqn:Er.
      intro H. injection H as <- <- <-.
      destruct (IH fs' r' d' eq_refl) as (raws & Fr & Em & Et & Hf & Ht).
      exists (firstn i text :: raws).
      split; [|split; [|split; [|split]]].
      * now constructor.
      * cbn [map]. now rewrite Em.
      * unfold records_text in *. cbn [map concat]. rewrite <- !app_assoc, <- Et.
        exact Hs.
      * exact Hf.
      * intro Hd'. destruct (Ht Hd') as (pre & dr & -> & Hdr).
        exists (firstn i text :: pre), dr. now split.
Qed.

(** X13. Whatever the chunks hold, when the stream closes after them
    nothing has been lost or taken twice.  Either the loop ends normally:
    then every chunk has been pulled, the whole text is exactly the records
    behind the new frames, each with its blank line, followed by what is left
    in the buffer, each new frame is its record trimmed, and the buffer holds
    no blank line.  Or the loop returns: then the last new frame is the
    sentinel, and the text of the chunks pulled is the records behind the new
    frames, each with its blank line, followed by what is left in the
    buffer. *)
Theorem read_loop_partitions_the_text :
  forall (cs : list jsstring) (s : Store),
    buffer s = [] ->
    let r := read_loop JSON_parse (chunks cs Done) s in
    (fst r = Normal tt
     /\ reads (snd r) = length cs + reads s
     /\ indexOf blank_line (buffer (snd r)) = None
     /\ exists raws,
          Forall (fun x => delimited x = true) raws
          /\ concat cs = records_text raws ++ buffer (snd r)
          /\ frames (snd r) = frames s ++ map trim raws)
    \/ (fst r = Return
        /\ isStreamSuccessful (snd r) = true
        /\ 0 < reads (snd r) - reads s <= length cs
        /\ exists raws dr,
             Forall (fun x => delimited x = true) (raws ++ [dr])
             /\ is_done_frame (trim dr) = true
             /\ concat (firstn (reads (snd r) - reads s) cs)
                = records_text (raws ++ [dr]) ++ buffer (snd r)
             /\ frames (snd r) = frames s ++ map trim (raws ++ [dr])).
Proof.
  intros cs s Hb r. subst r.
  pose proof (read_loop_chunks JSON_parse cs Done s) as L.
  rewrite Hb in L. specialize (L eq_refl). cbn [app] in L.
  destruct (decode (concat cs)) as [[fs r] d] eqn:Ed.
  destruct (decode_partition _ _ _ _ Ed) as (raws & Fr & Em & Et & Hf & Ht).
  destruct d.
  - right. destruct L as (k & b & Hk & Hbk & _ & L).
    destruct (Ht eq_refl) as (pre & dr & -> & Hdr).
    rewrite L.
    cbn [fst snd absorb pulled with_reads reads buffer frames isStreamSuccessful orb].
    replace (k + reads s - reads s) with k by lia.
    split; [reflexivity|]. split; [reflexivity|]. split; [exact Hk|].
    exists pre, dr. repeat split; try assumption; [|now rewrite Em].
    rewrite <- (firstn_skipn k cs), concat_app, <- Hbk, app_assoc in Et.
    now apply app_inv_tail in Et.
  - left. rewrite L, read_loop_Done.
    cbn [fst snd with_console absorb pulled with_reads reads buffer frames].
    split; [reflexivity|]. split; [reflexivity|]. split; [now apply Hf|].
    exists raws. repeat split; try assumption. now rewrite Em.
Qed.

(** ** What is shown *)

(** X15. While a session runs, a parsed STATUS payload decides the text of
    the button: the message up to its first colon, or Processing... when
    that is empty; and when the payload has no message the status becomes
    undefined and computing the button's text throws. *)
Theorem status_payload_sets_the_button_text :
  forall (m : jsstring) (data : Payload.t) (live : State),
    startsWith (lit "data:") m = true ->
    jsstring_eqb (body_of m) done_token = false ->
    JSON_parse (body_of m) = Some data ->
    Payload.tag data = Some (lit "STATUS") ->
    isProcessing live = true ->
    button_label (reduce live (frame_actions JSON_parse m)) =
    match Payload.message data with
    | Some msg => Some (or_else (before_colon msg) (lit "Processing..."))
    | None => None
    end.
Proof.
  intros m data live Hm Hd Hp Ht Hl.
  rewrite (frame_actions_data JSON_parse m data Hm Hp), Hd.
  unfold payload_actions. rewrite Ht.
  change (is_string (Some (lit "STATUS")) (lit "STATUS")) with true.
  change (is_string (Some (lit "STATUS")) (lit "ERROR")) with false.
  cbv iota.
  destruct (truthy (Payload.transcript data));
    destruct (truthy (Payload.summary data));
    cbn [app reduce fold_left streamReducer]; unfold button_label;
    cbn [isProcessing statusMessage]; rewrite Hl; reflexivity.
Qed.

(** ** White space after the prefix *)

Lemma trimStart_pad (p b : jsstring) :
  Forall (fun c => is_white c = true) p -> trimStart (p ++ b) = trimStart b.
Proof.
  induction 1 as [|c p Hc _ IH]; [reflexivity|].
  cbn [app trimStart]. now rewrite Hc.
Qed.

(** X18. White space between the [data:] prefix and the body is immaterial:
    a frame with any amount of it, or none, is handled as the frame without
    it. *)
Theorem space_after_the_prefix_is_optional :
  forall (p b : jsstring) (s : Store),
    Forall (fun c => is_white c = true) p ->
    handle_message JSON_parse (lit "data:" ++ p ++ b) s
    = handle_message JSON_parse (lit "data:" ++ b) s.
Proof.
  intros p b s Hp. unfold handle_message.
  rewrite !startsWith_self_app. unfold when. cbv zeta.
  change (substring_from 5 (lit "data:" ++ p ++ b)) with (p ++ b).
  change (substring_from 5 (lit "data:" ++ b)) with b.
  unfold trim. now rewrite (trimStart_pad p b Hp).
Qed.

End Sessions.

(** ** File selection *)

(** X14. A file selection outside a session records the file and the status
    line for it and keeps the report: transcript, summary and error are as
    before, so that an earlier error is still what the status paragraph
    shows; the button is enabled exactly when a file was chosen. *)
Theorem file_selection_keeps_the_report :
  forall (c : FileUpload.t) (selected : option File),
    isProcessing (FileUpload.state c) = false ->
    let c' := handleFileChange c selected in
    let status :=
      match selected with
      | Some f => file_selected_status f
      | None => lit "Upload an audio or video file to begin."
      end in
    FileUpload.file c' = selected
    /\ isProcessing (FileUpload.state c') = false
    /\ transcript (FileUpload.state c') = transcript (FileUpload.state c)
    /\ summary (FileUpload.state c') = summary (FileUpload.state c)
    /\ error (FileUpload.state c') = error (FileUpload.state c)
    /\ statusMessage (FileUpload.state c') = Some status
    /\ banner (FileUpload.state c') =
       (if truthy (error (FileUpload.state c))
        then Some (cross_mark ++ lit " " ++ string_or_empty (error (FileUpload.state c)))
        else Some status)
    /\ button_disabled c' = match selected with Some _ => false | None => true end.
Proof.
  intros c selected Hp c' status. subst c' status.
  unfold handleFileChange. rewrite Hp.
  unfold button_disabled, banner. rewrite render_state, render_file.
  cbn [FileUpload.file FileUpload.state streamReducer isProcessing transcript summary
       error statusMessage].
  destruct selected as [f|]; repeat split.
Qed.

(** ** The upload form *)

(** X17. [handleUpload] of the upload form.  Without a chosen file it only
    sets the error asking for one.  With one, while the request is pending
    the form is uploading with its button disabled and the page has no file
    and no stream data; afterwards the form is no longer uploading, the
    stream data are empty, and the page gets the file, and shows the
    transcript stream, exactly when the response has a status in 200-299:
    otherwise the form shows the fixed failure text, whatever the failure. *)
Theorem handleUpload_outcome :
  forall (u : Upload.t) (a : App.t) (response : Fetch),
    match Upload.localFile u with
    | None =>
        Upload.apply_all (u, a) (Upload.handleUpload u response)
        = (Upload.mk None (Upload.isUploading u) (Some Upload.select_first), a)
    | Some f =>
        let pending := Upload.apply_all (u, a) (Upload.handleUpload_before u) in
        let final := Upload.apply_all (u, a) (Upload.handleUpload u response) in
        pending = (Upload.mk (Some f) true None, App.mk None [])
        /\ Upload.button_disabled (fst pending) = true
        /\ App.shows_stream (snd pending) = false
        /\ final =
           (Upload.mk (Some f) false
              (if upload_succeeded response then None else Some Upload.upload_failed),
            App.mk (if upload_succeeded response then Some f else None) [])
        /\ App.shows_stream (snd final) = upload_succeeded response
    end.
Proof.
  intros [lf iu er] [af sd] response. cbn [Upload.localFile].
  destruct lf as [f|]; [|reflexivity].
  unfold Upload.handleUpload, Upload.handleUpload_before, Upload.handleUpload_after.
  cbn [Upload.localFile].
  destruct response as [status body|e]; cbn [upload_succeeded];
    [destruct (ok status)|]; cbn; repeat split.
Qed.

(** ** Instances of the further properties *)

Lemma transcript_is_append_only_witness :
  exists t u,
    transcript (reduce initialState sample_actions) = transcript initialState ++ t
    /\ summary (reduce initialState sample_actions) = summary initialState ++ u.
Proof.
  apply (transcript_is_append_only sample_actions initialState).
  repeat constructor.
Defined.

Lemma fragments_are_joined_by_single_spaces_witness :
  transcript (reduce initialState sample_actions)
  = join_spaces (transcript_fragments sample_actions).
Proof.
  apply (fragments_are_joined_by_single_spaces sample_actions initialState);
    [reflexivity | repeat constructor | repeat constructor; discriminate].
Defined.

Lemma session_trace_shape_witness :
  exists l t,
    dispatched (run FlatJSON.parse (Some meeting) initialState boom_then_done empty_store)
    = START :: l ++ t
    /\ Forall (fun a => is_progress a = true) l
    /\ Forall (fun a => is_terminal a = true) t
    /\ length t <= 2
    /\ (forall p, In (COMPLETE p) t -> t = [COMPLETE (Some complete_status)])
    /\ (forall live,
          isProcessing (reduce live (START :: l ++ t)) =
          match t with [] => true | _ :: _ => false end).
Proof.
  apply (session_trace_shape FlatJSON.parse meeting initialState boom_then_done).
  reflexivity.
Defined.


Lemma cleanup_releases_the_transport_witness :
  let s' := run FlatJSON.parse (Some meeting) initialState read_fails empty_store in
  controller s' = Some true
  /\ reader s' = match opened read_fails with Some _ => Some true | None => None end.
Proof.
  apply (cleanup_releases_the_transport FlatJSON.parse meeting initialState read_fails
           empty_store).
  reflexivity.
Defined.


Lemma refused_stream_ends_the_session_witness :
  let s := run FlatJSON.parse (Some meeting) initialState stream_refused empty_store in
  dispatched s =
    prelude ++ [ERROR (lit "Stream request failed with status " ++ decimal 404)]
    ++ (if truthy (error initialState) then [] else [ERROR interrupted_message])
  /\ reads s = 0 /\ frames s = [] /\ reader s = None.
Proof.
  apply (refused_stream_ends_the_session FlatJSON.parse meeting initialState
           stream_refused 200%N 404%N None (Some Done));
    [reflexivity | reflexivity | reflexivity | reflexivity | now left].
Defined.

Lemma thrown_error_is_reported_witness :
  let s1 := snd (try_block FlatJSON.parse read_fails (begun empty_store)) in
  let s := run FlatJSON.parse (Some meeting) initialState read_fails empty_store in
  dispatched s =
    dispatched s1 ++ [ERROR (reported_message network_error)]
    ++ (if truthy (error initialState) then [] else [ERROR interrupted_message])
  /\ reported_message network_error <> []
  /\ (err_message network_error <> [] ->
      reported_message network_error = err_message network_error)
  /\ error (reduce initialState (dispatched s)) =
     Some (if truthy (error initialState) then reported_message network_error
           else interrupted_message)
  /\ isProcessing (reduce initialState (dispatched s)) = false.
Proof.
  apply (thrown_error_is_reported FlatJSON.parse meeting initialState initialState
           read_fails network_error
           (snd (try_block FlatJSON.parse read_fails (begun empty_store))));
    reflexivity.
Defined.

Lemma closed_stream_drops_the_unfinished_record_witness :
  let s := run FlatJSON.parse (Some meeting) initialState closes_early_world empty_store in
  frames s = map trim [hello_record]
  /\ buffer s = late_record ++ [newline]
  /\ reads s = length closes_early
  /\ dispatched s =
     prelude ++ flat_map (frame_actions FlatJSON.parse) (map trim [hello_record])
     ++ (if truthy (error initialState) then [] else [ERROR interrupted_message])
  /\ In log_reader_finished (console s).
Proof.
  apply (closed_stream_drops_the_unfinished_record FlatJSON.parse meeting initialState
           closes_early_world closes_early [hello_record] (late_record ++ [newline]));
    [reflexivity | reflexivity | repeat constructor | reflexivity | reflexivity].
Defined.

Lemma stale_error_leaves_the_session_open_witness :
  filter is_terminal (snd (click FlatJSON.parse failed_once closes_early_world)) = []
  /\ isProcessing
       (FileUpload.state (fst (click FlatJSON.parse failed_once closes_early_world))) = true
  /\ button_disabled (fst (click FlatJSON.parse failed_once closes_early_world)) = true
  /\ forall selected,
       handleFileChange (fst (click FlatJSON.parse failed_once closes_early_world)) selected
       = fst (click FlatJSON.parse failed_once closes_early_world).
Proof.
  apply (stale_error_leaves_the_session_open FlatJSON.parse failed_once meeting
           closes_early_world closes_early [hello_record] (late_record ++ [newline]));
    [reflexivity | reflexivity | reflexivity | reflexivity | reflexivity
    | repeat constructor | reflexivity | reflexivity].
Defined.

Lemma other_records_are_ignored_witness :
  (let r := read_loop FlatJSON.parse (chunks with_comments_cut Done) empty_store in
   fst r = Normal tt
   /\ frames (snd r)
      = frames empty_store ++ map trim [ping_record; hello_record; event_record]
   /\ dispatched (snd r) =
      dispatched empty_store
      ++ flat_map (frame_actions FlatJSON.parse)
           (map trim (filter has_data_prefix [ping_record; hello_record; event_record]))
   /\ console (snd r) =
      console empty_store
      ++ flat_map (frame_logs FlatJSON.parse)
           (map trim (filter has_data_prefix [ping_record; hello_record; event_record]))
      ++ [log_reader_finished]
   /\ buffer (snd r) = []
   /\ reads (snd r) = length with_comments_cut + reads empty_store)
  /\ (forall e,
        read_loop FlatJSON.parse (chunks with_comments_cut e) empty_store =
        read_loop FlatJSON.parse e
          (absorb FlatJSON.parse (map trim [ping_record; hello_record; event_record])
                  [] false (pulled (length with_comments_cut) empty_store))).
Proof.
  apply (other_records_are_ignored FlatJSON.parse with_comments_cut
           [ping_record; hello_record; event_record] empty_store);
    [reflexivity | repeat constructor | reflexivity].
Defined.

Lemma read_loop_partitions_the_text_witness :
  let r := read_loop FlatJSON.parse (chunks done_cut Done) empty_store in
  (fst r = Normal tt
   /\ reads (snd r) = length done_cut + reads empty_store
   /\ indexOf blank_line (buffer (snd r)) = None
   /\ exists raws,
        Forall (fun x => delimited x = true) raws
        /\ concat done_cut = records_text raws ++ buffer (snd r)
        /\ frames (snd r) = frames empty_store ++ map trim raws)
  \/ (fst r = Return
      /\ isStreamSuccessful (snd r) = true
      /\ 0 < reads (snd r) - reads empty_store <= length done_cut
      /\ exists raws dr,
           Forall (fun x => delimited x = true) (raws ++ [dr])
           /\ is_done_frame (trim dr) = true
           /\ concat (firstn (reads (snd r) - reads empty_store) done_cut)
              = records_text (raws ++ [dr]) ++ buffer (snd r)
           /\ frames (snd r) = frames empty_store ++ map trim (raws ++ [dr])).
Proof.
  apply (read_loop_partitions_the_text FlatJSON.parse done_cut empty_store).
  reflexivity.
Defined.

Lemma file_selection_keeps_the_report_witness :
  let c' := handleFileChange failed_once (Some meeting) in
  let status := file_selected_status meeting in
  FileUpload.file c' = Some meeting
  /\ isProcessing (FileUpload.state c') = false
  /\ transcript (FileUpload.state c') = transcript (FileUpload.state failed_once)
  /\ summary (FileUpload.state c') = summary (FileUpload.state failed_once)
  /\ error (FileUpload.state c') = error (FileUpload.state failed_once)
  /\ statusMessage (FileUpload.state c') = Some status
  /\ banner (FileUpload.state c') =
     (if truthy (error (FileUpload.state failed_once))
      then Some (cross_mark ++ lit " "
                 ++ string_or_empty (error (FileUpload.state failed_once)))
      else Some status)
  /\ button_disabled c' = false.
Proof.
  apply (file_selection_keeps_the_report failed_once (Some meeting)).
  reflexivity.
Defined.

Lemma status_payload_sets_the_button_text_witness :
  button_label (reduce (FileUpload.state running)
                       (frame_actions FlatJSON.parse bare_status_record))
  = None.
Proof.
  apply (status_payload_sets_the_button_text FlatJSON.parse bare_status_record
           (Payload.mk (Some (lit "STATUS")) None None None) (FileUpload.state running));
    reflexivity.
Defined.

Lemma space_after_the_prefix_is_optional_witness :
  handle_message FlatJSON.parse
    (lit "data:" ++ lit "   " ++ wire "{'transcript':'hello'}") empty_store
  = handle_message FlatJSON.parse
      (lit "data:" ++ wire "{'transcript':'hello'}") empty_store.
Proof.
  apply (space_after_the_prefix_is_optional FlatJSON.parse (lit "   ")
           (wire "{'transcript':'hello'}") empty_store).
  repeat constructor.
Defined.
